(** * Tech Support Chat: a model of [app.py] and its verified properties

    The program is a desktop chat window that forwards the conversation to a
    language model run as a sub-process and shows the reply with a small
    markdown renderer, a typing indicator and a character-by-character reveal.

    Python strings are modelled as lists of characters ([list ascii]); one
    [ascii] stands for one code point below U+0100, and every character class
    used below (white space, line boundaries, decimal digits, lower-casing) is
    the one Python uses on that range. *)

From Stdlib Require Import List Ascii String Arith ZArith Bool Lia.
From Equations Require Import Equations.
From stdpp Require Import list.
Import ListNotations.
Open Scope list_scope.

(** ** Python string primitives *)

Abbreviation str := (list ascii).

(** A string literal of the source. *)
Definition lit (s : string) : str := list_ascii_of_string s.

Definition code (c : ascii) : nat := nat_of_ascii c.

Definition in_codes (cs : list nat) (c : ascii) : bool :=
  existsb (Nat.eqb (code c)) cs.

(** [str.isspace], which is also the regular-expression class [\s]. *)
Definition isspace : ascii -> bool :=
  in_codes [9; 10; 11; 12; 13; 28; 29; 30; 31; 32; 133; 160].

(** The characters at which [str.splitlines] cuts. *)
Definition is_line_boundary : ascii -> bool :=
  in_codes [10; 11; 12; 13; 28; 29; 30; 133].

(** The regular-expression class [\d]. *)
Definition isdecimal (c : ascii) : bool :=
  (48 <=? code c) && (code c <=? 57).

Definition LF : ascii := ascii_of_nat 10.
Definition CR : ascii := ascii_of_nat 13.

(** The regular-expression class [.] (no DOTALL flag): all but the newline. *)
Definition isdot (c : ascii) : bool := negb (Ascii.eqb c LF).

Definition lower_char (c : ascii) : ascii :=
  let n := code c in
  if ((65 <=? n) && (n <=? 90))
     || ((192 <=? n) && (n <=? 222) && negb (n =? 215))
  then ascii_of_nat (n + 32)
  else c.

(** [str.lower] *)
Definition lower (s : str) : str := map lower_char s.

Fixpoint take_while (p : ascii -> bool) (s : str) : str :=
  match s with
  | [] => []
  | c :: s' => if p c then c :: take_while p s' else []
  end.

Fixpoint drop_while (p : ascii -> bool) (s : str) : str :=
  match s with
  | [] => []
  | c :: s' => if p c then drop_while p s' else s
  end.

Definition lstrip (s : str) : str := drop_while isspace s.
Definition rstrip (s : str) : str := rev (drop_while isspace (rev s)).

(** [str.strip()] *)
Definition strip (s : str) : str := lstrip (rstrip s).

(** [starts_with p s] is what follows [p] in [s] when [s] begins with [p]. *)
Fixpoint starts_with (p s : str) : option str :=
  match p, s with
  | [], _ => Some s
  | a :: p', b :: s' => if Ascii.eqb a b then starts_with p' s' else None
  | _ :: _, [] => None
  end.

(** [s == t] *)
Fixpoint str_eqb (s t : str) : bool :=
  match s, t with
  | [], [] => true
  | a :: s', b :: t' => Ascii.eqb a b && str_eqb s' t'
  | _, _ => false
  end.

(** [s.startswith(p)] *)
Definition startswith (s p : str) : bool :=
  match starts_with p s with Some _ => true | None => false end.

(** [s.replace(old, new)] for a one-character [old]. *)
Definition replace (old : ascii) (new : str) (s : str) : str :=
  flat_map (fun c => if Ascii.eqb c old then new else [c]) s.

(** [sep.join(parts)] *)
Fixpoint join (sep : str) (parts : list str) : str :=
  match parts with
  | [] => []
  | [p] => p
  | p :: ps => p ++ sep ++ join sep ps
  end.

Definition cons_line (c : ascii) (ls : list str) : list str :=
  match ls with
  | [] => [[c]]
  | l :: ls' => (c :: l) :: ls'
  end.

(** [str.splitlines()]: cuts at every line boundary, a carriage return
    followed by a line feed counting as one; no empty last line. *)
Fixpoint splitlines (s : str) : list str :=
  match s with
  | [] => []
  | c :: s' =>
      if is_line_boundary c then
        match s' with
        | c' :: s'' =>
            if Ascii.eqb c CR && Ascii.eqb c' LF
            then [] :: splitlines s''
            else [] :: splitlines s'
        | [] => [[]]
        end
      else cons_line c (splitlines s')
  end.

(** [s.split(sep, 1)] for a one-character [sep]. *)
Fixpoint split_once (sep : ascii) (s : str) : list str :=
  match s with
  | [] => [[]]
  | c :: s' =>
      if Ascii.eqb c sep then [[]; s']
      else match split_once sep s' with
           | p :: ps => (c :: p) :: ps
           | [] => [[c]]
           end
  end.

(** ** The regular expressions of the renderer

    The three inline patterns have one shape, a literal delimiter [D], a lazy
    group of one or more characters, and [D] again: after [D], one character
    that is not a newline, then as few more such characters as possible until
    [D] follows. *)

Fixpoint lazy_until (d : str) (s : str) : option (str * str) :=
  match starts_with d s with
  | Some rest => Some ([], rest)
  | None =>
      match s with
      | [] => None
      | c :: s' =>
          if isdot c then
            match lazy_until d s' with
            | Some (g, rest) => Some (c :: g, rest)
            | None => None
            end
          else None
      end
  end.

(** A match of such a pattern at the start of [s]: group 1 and what follows
    the match. *)
Definition match_delim (d : str) (s : str) : option (str * str) :=
  match starts_with d s with
  | Some (c :: r) =>
      if isdot c then
        match lazy_until d r with
        | Some (g, rest) => Some (c :: g, rest)
        | None => None
        end
      else None
  | _ => None
  end.

Lemma starts_with_app (p s r : str) :
  starts_with p s = Some r -> s = p ++ r.
Proof.
  revert s; induction p as [|a p IH]; intros [|b s]; simpl; intros H;
    try congruence.
  destruct (Ascii.eqb_spec a b); [subst|discriminate].
  f_equal; auto.
Qed.

Lemma lazy_until_app (d s g r : str) :
  lazy_until d s = Some (g, r) -> s = g ++ d ++ r.
Proof.
  revert g r; induction s as [|c s IH]; intros g r; simpl.
  - destruct (starts_with d []) eqn:E; [|discriminate].
    intros [= <- <-]. now apply starts_with_app in E.
  - destruct (starts_with d (c :: s)) eqn:E.
    + intros [= <- <-]. now apply starts_with_app in E.
    + destruct (isdot c); [|discriminate].
      destruct (lazy_until d s) as [[g' r']|]; [|discriminate].
      intros [= <- <-]. simpl. f_equal. now apply IH.
Qed.

Lemma match_delim_app (d s g r : str) :
  match_delim d s = Some (g, r) -> s = d ++ g ++ d ++ r /\ g <> [].
Proof.
  unfold match_delim.
  destruct (starts_with d s) as [[|c t]|] eqn:E; try discriminate.
  destruct (isdot c); [|discriminate].
  destruct (lazy_until d t) as [[g' r']|] eqn:E2; [|discriminate].
  intros [= <- <-]. apply starts_with_app in E. apply lazy_until_app in E2.
  subst. split; [reflexivity | discriminate].
Qed.

Lemma match_delim_shorter (d s g r : str) :
  match_delim d s = Some (g, r) -> length r < length s.
Proof.
  intros H. apply match_delim_app in H as [-> Hg].
  destruct g; [congruence|]. rewrite !length_app. simpl. lia.
Qed.

Definition inspect {A} (a : A) : {b | a = b} := exist _ a eq_refl.

(** [re.sub] of such a pattern with the template [opn \1 cls]: the leftmost
    match is replaced and the scan goes on after it; where there is no match
    the character is kept. *)
Equations? re_sub (d opn cls : str) (s : str) : str by wf (length s) lt :=
  re_sub d opn cls s with inspect (match_delim d s) => {
    | exist _ (Some (g, rest)) _ := opn ++ g ++ cls ++ re_sub d opn cls rest;
    | exist _ None _ with s => {
        | [] := [];
        | c :: s' := c :: re_sub d opn cls s' } }.
Proof.
  - eapply match_delim_shorter; eauto.
  - simpl; lia.
Qed.

(** [li_ul_re]: optional white space, a hyphen or an asterisk, white space,
    then group 1, the rest of the line; used with [match], which anchors the
    pattern at the start. The result is group 1 of a match. *)
Definition li_ul_re (line : str) : option str :=
  match drop_while isspace line with
  | c :: r =>
      if Ascii.eqb c "-"%char || Ascii.eqb c "*"%char then
        match r with
        | w :: r' =>
            if isspace w
            then Some (take_while isdot (drop_while isspace r'))
            else None
        | [] => None
        end
      else None
  | [] => None
  end.

(** [li_ol_re]: optional white space, decimal digits, a full stop, white
    space, then group 1, the rest of the line. *)
Definition li_ol_re (line : str) : option str :=
  match drop_while isspace line with
  | c :: r =>
      if isdecimal c then
        match drop_while isdecimal r with
        | p :: w :: r' =>
            if Ascii.eqb p "."%char && isspace w
            then Some (take_while isdot (drop_while isspace r'))
            else None
        | _ => None
        end
      else None
  | [] => None
  end.

(** ** The markdown renderer *)

Definition UL_OPEN : str := lit "<ul style='margin:6px 0 6px 18px;padding:0;'>".
Definition OL_OPEN : str := lit "<ol style='margin:6px 0 6px 18px;padding:0;'>".

Definition html_escape (text : str) : str :=
  replace ">"%char (lit "&gt;")
    (replace "<"%char (lit "&lt;") (replace "&"%char (lit "&amp;") text)).

Definition inline_code (text : str) : str :=
  re_sub (lit "`") (lit "<code>") (lit "</code>") text.

Definition bold (text : str) : str :=
  re_sub (lit "**") (lit "<b>") (lit "</b>") text.

Definition italic (text : str) : str :=
  re_sub (lit "*") (lit "<i>") (lit "</i>") text.

(** The local variables of the loop over the lines. *)
Record list_state := ListState {
  out_lines : list str;
  in_ul : bool;
  in_ol : bool
}.

Definition list_item (g : str) : str := lit "<li>" ++ g ++ lit "</li>".

(** One turn of the [for line in lines] loop. *)
Definition list_step (st : list_state) (line : str) : list_state :=
  match li_ul_re line, li_ol_re line with
  | Some g, _ =>
      let out := if in_ul st then out_lines st else out_lines st ++ [UL_OPEN] in
      ListState (out ++ [list_item g]) true (in_ol st)
  | None, Some g =>
      let out := if in_ol st then out_lines st else out_lines st ++ [OL_OPEN] in
      ListState (out ++ [list_item g]) (in_ul st) true
  | None, None =>
      let out := if in_ul st then out_lines st ++ [lit "</ul>"] else out_lines st in
      let out := if in_ol st then out ++ [lit "</ol>"] else out in
      ListState (out ++ [line]) false false
  end.

(** The two closing tests after the loop. *)
Definition close_lists (st : list_state) : list str :=
  let out := if in_ul st then out_lines st ++ [lit "</ul>"] else out_lines st in
  if in_ol st then out ++ [lit "</ol>"] else out.

(** Lines 125-161: the list pass over a text whose inline markup is done. *)
Definition render_lists (text : str) : str :=
  let st := fold_left list_step (splitlines text) (ListState [] false false) in
  join (lit "<br>") (close_lists st).

Definition markdown_to_html (text : str) : str :=
  match text with
  | [] => []
  | _ => render_lists (italic (bold (inline_code (html_escape text))))
  end.

(** ** Configuration *)

Definition BOT_NAMES : list str :=
  map lit ["Elsa"; "Alma"; "Freja"; "Linnea"; "Klara"; "Elin";
           "Axel"; "Leo"; "Emil"; "Nils"; "Erik"; "Johan";
           "Robin"; "Alex"; "Sam"; "Kim"; "Mika"; "Lukas"; "Svea"]%string.

Definition MODEL : str := lit "deepseek-v3.1:671b-cloud".

Definition PROMPT : str := lit "You are a tech support agent.
Your job:
- Help users with technical issues they have.
- If they have any questions about how to do something, tell them step by step how to do it.
- Don't give any harmful or illegal advice.

Format your response in plain text. Keep it short and conversational.
".

Definition QUOTE : ascii := ascii_of_nat 34.

(** ** The model worker *)

(** The exceptions the body of [ModelWorker.run] can meet; all of them are
    subclasses of [Exception]. *)
Inductive exn :=
| TimeoutExpired
| FileNotFoundError
| OtherException (message : str).

(** The two signals of the worker. *)
Inductive signal :=
| result_ready (text : str)
| error (message : str).

(** What [subprocess.run] does with a command: it returns the captured
    standard output (which may be missing) or raises. *)
Inductive completed :=
| Returned (stdout : option str)
| Raised (e : exn).

(** ** The chat window *)

(** An entry of [self.messages]. *)
Record Message := Msg { sender : str; html : str }.

(** The attributes of [ChatWindow] the handlers read and write, the global
    [conversation_history], and the two widgets seen from outside: the
    enabled flags of the input field and of the send button, and the notices
    shown with [QMessageBox.warning]. A timer is its [isActive] flag.
    [worker] holds the input of a started worker that has not delivered its
    signal yet. *)
Record ChatWindow := {
  bot_color : str;
  user_color : str;
  messages : list Message;
  chat_display : str;
  typing_indicator_timer : bool;
  typing_dots : nat;
  typing_msg_index : option nat;
  reveal_timer : bool;
  reveal_full_text : str;
  reveal_index : nat;
  reveal_msg_index : option nat;
  conversation_history : list str;
  input_enabled : bool;
  send_enabled : bool;
  warnings : list str;
  worker : option str
}.

Definition set_messages (v : list Message) (w : ChatWindow) : ChatWindow :=
  Build_ChatWindow (bot_color w) (user_color w) v (chat_display w)
    (typing_indicator_timer w) (typing_dots w) (typing_msg_index w)
    (reveal_timer w) (reveal_full_text w) (reveal_index w)
    (reveal_msg_index w) (conversation_history w) (input_enabled w)
    (send_enabled w) (warnings w) (worker w).

Definition set_chat_display (v : str) (w : ChatWindow) : ChatWindow :=
  Build_ChatWindow (bot_color w) (user_color w) (messages w) v
    (typing_indicator_timer w) (typing_dots w) (typing_msg_index w)
    (reveal_timer w) (reveal_full_text w) (reveal_index w)
    (reveal_msg_index w) (conversation_history w) (input_enabled w)
    (send_enabled w) (warnings w) (worker w).

Definition set_typing_indicator_timer (v : bool) (w : ChatWindow) : ChatWindow :=
  Build_ChatWindow (bot_color w) (user_color w) (messages w)
    (chat_display w) v (typing_dots w) (typing_msg_index w) (reveal_timer w)
    (reveal_full_text w) (reveal_index w) (reveal_msg_index w)
    (conversation_history w) (input_enabled w) (send_enabled w) (warnings w)
    (worker w).

Definition set_typing_dots (v : nat) (w : ChatWindow) : ChatWindow :=
  Build_ChatWindow (bot_color w) (user_color w) (messages w)
    (chat_display w) (typing_indicator_timer w) v (typing_msg_index w)
    (reveal_timer w) (reveal_full_text w) (reveal_index w)
    (reveal_msg_index w) (conversation_history w) (input_enabled w)
    (send_enabled w) (warnings w) (worker w).

Definition set_typing_msg_index (v : option nat) (w : ChatWindow) : ChatWindow :=
  Build_ChatWindow (bot_color w) (user_color w) (messages w)
    (chat_display w) (typing_indicator_timer w) (typing_dots w) v
    (reveal_timer w) (reveal_full_text w) (reveal_index w)
    (reveal_msg_index w) (conversation_history w) (input_enabled w)
    (send_enabled w) (warnings w) (worker w).

Definition set_reveal_timer (v : bool) (w : ChatWindow) : ChatWindow :=
  Build_ChatWindow (bot_color w) (user_color w) (messages w)
    (chat_display w) (typing_indicator_timer w) (typing_dots w)
    (typing_msg_index w) v (reveal_full_text w) (reveal_index w)
    (reveal_msg_index w) (conversation_history w) (input_enabled w)
    (send_enabled w) (warnings w) (worker w).

Definition set_reveal_full_text (v : str) (w : ChatWindow) : ChatWindow :=
  Build_ChatWindow (bot_color w) (user_color w) (messages w)
    (chat_display w) (typing_indicator_timer w) (typing_dots w)
    (typing_msg_index w) (reveal_timer w) v (reveal_index w)
    (reveal_msg_index w) (conversation_history w) (input_enabled w)
    (send_enabled w) (warnings w) (worker w).

Definition set_reveal_index (v : nat) (w : ChatWindow) : ChatWindow :=
  Build_ChatWindow (bot_color w) (user_color w) (messages w)
    (chat_display w) (typing_indicator_timer w) (typing_dots w)
    (typing_msg_index w) (reveal_timer w) (reveal_full_text w) v
    (reveal_msg_index w) (conversation_history w) (input_enabled w)
    (send_enabled w) (warnings w) (worker w).

Definition set_reveal_msg_index (v : option nat) (w : ChatWindow) : ChatWindow :=
  Build_ChatWindow (bot_color w) (user_color w) (messages w)
    (chat_display w) (typing_indicator_timer w) (typing_dots w)
    (typing_msg_index w) (reveal_timer w) (reveal_full_text w)
    (reveal_index w) v (conversation_history w) (input_enabled w)
    (send_enabled w) (warnings w) (worker w).

Definition set_conversation_history (v : list str) (w : ChatWindow) : ChatWindow :=
  Build_ChatWindow (bot_color w) (user_color w) (messages w)
    (chat_display w) (typing_indicator_timer w) (typing_dots w)
    (typing_msg_index w) (reveal_timer w) (reveal_full_text w)
    (reveal_index w) (reveal_msg_index w) v (input_enabled w)
    (send_enabled w) (warnings w) (worker w).

Definition set_input_enabled (v : bool) (w : ChatWindow) : ChatWindow :=
  Build_ChatWindow (bot_color w) (user_color w) (messages w)
    (chat_display w) (typing_indicator_timer w) (typing_dots w)
    (typing_msg_index w) (reveal_timer w) (reveal_full_text w)
    (reveal_index w) (reveal_msg_index w) (conversation_history w) v
    (send_enabled w) (warnings w) (worker w).

Definition set_send_enabled (v : bool) (w : ChatWindow) : ChatWindow :=
  Build_ChatWindow (bot_color w) (user_color w) (messages w)
    (chat_display w) (typing_indicator_timer w) (typing_dots w)
    (typing_msg_index w) (reveal_timer w) (reveal_full_text w)
    (reveal_index w) (reveal_msg_index w) (conversation_history w)
    (input_enabled w) v (warnings w) (worker w).

Definition set_warnings (v : list str) (w : ChatWindow) : ChatWindow :=
  Build_ChatWindow (bot_color w) (user_color w) (messages w)
    (chat_display w) (typing_indicator_timer w) (typing_dots w)
    (typing_msg_index w) (reveal_timer w) (reveal_full_text w)
    (reveal_index w) (reveal_msg_index w) (conversation_history w)
    (input_enabled w) (send_enabled w) v (worker w).

Definition set_worker (v : option str) (w : ChatWindow) : ChatWindow :=
  Build_ChatWindow (bot_color w) (user_color w) (messages w)
    (chat_display w) (typing_indicator_timer w) (typing_dots w)
    (typing_msg_index w) (reveal_timer w) (reveal_full_text w)
    (reveal_index w) (reveal_msg_index w) (conversation_history w)
    (input_enabled w) (send_enabled w) (warnings w) v.

Section App.

(** [BOT_NAME = random.choice(BOT_NAMES)], drawn once when the module is
    loaded. *)
Variable BOT_NAME : str.

(** *** [ModelWorker.run] *)

Section Worker.

(** The JSON codec of the standard library: [json.dumps] of a string, and
    [json.loads] of a text, [None] when it raises. *)
Variable json_dumps : str -> str.
Variable json_loads : str -> option str.

(** The transcript: the system instruction, the conversation so far, one line
    per entry, and the cue for the reply. *)
Definition full_prompt (history : list str) : str :=
  PROMPT ++ [LF; LF] ++ join [LF] history ++ [LF] ++ BOT_NAME ++ lit ":".

Definition cmd (history : list str) : str :=
  lit "echo " ++ json_dumps (full_prompt history) ++ lit " | ollama run " ++ MODEL.

(** The body of the [try] statement: the exception it ends with, or the
    signals it emits. *)
Definition run_try (subprocess_run : str -> completed) (history : list str)
  : exn + list signal :=
  match subprocess_run (cmd history) with
  | Raised e => inl e
  | Returned stdout =>
      let output := match stdout with Some (c :: r) => c :: r | _ => [] end in
      let output := strip output in
      let output_decoded :=
        match json_loads ([QUOTE] ++ output ++ [QUOTE]) with
        | Some decoded => decoded
        | None => output
        end in
      match output_decoded with
      | [] => inr [error (lit "Error: Model returned no output.")]
      | _ :: _ => inr [result_ready output_decoded]
      end
  end.

(** [ModelWorker.run]: the [try] statement with its three [except] clauses.
    The result is the exception that leaves [run], or the signals emitted. *)
Definition run (subprocess_run : str -> completed) (history : list str)
  : exn + list signal :=
  match run_try subprocess_run history with
  | inr emitted => inr emitted
  | inl TimeoutExpired => inr [error (lit "Error: Model timed out.")]
  | inl FileNotFoundError =>
      inr [error (lit "Error: 'ollama' not found. Please install or run Ollama.")]
  | inl (OtherException message) => inr [error (lit "Error: " ++ message)]
  end.

End Worker.

(** *** Rendering *)

Definition _render_messages (w : ChatWindow) : ChatWindow :=
  set_chat_display
    (lit "<div style='font-size:16px; line-height:1.4;'>"
       ++ concat (map html (messages w)) ++ lit "</div>") w.

Definition _create_message_block (w : ChatWindow) (sender inner_html : str) : str :=
  let sender_color :=
    if str_eqb sender BOT_NAME then bot_color w else user_color w in
  lit "<div style='margin-top:12px; margin-bottom:12px;'>"
    ++ lit "<div style='font-weight:700; color:" ++ sender_color
    ++ lit "; margin-bottom:4px;'>" ++ sender ++ lit ":</div>"
    ++ lit "<div>" ++ inner_html ++ lit "</div>"
    ++ lit "</div>".

(** [self.messages[i]['html'] = block] *)
Definition set_html (i : nat) (block : str) (ms : list Message) : list Message :=
  alter (fun m => Msg (sender m) block) i ms.

(** *** The typing indicator *)

Definition _start_typing_indicator (w : ChatWindow) : ChatWindow :=
  let indicator_html := _create_message_block w BOT_NAME (lit " ") in
  let w := set_messages (messages w ++ [Msg BOT_NAME indicator_html]) w in
  let w := set_typing_msg_index (Some (length (messages w) - 1)) w in
  let w := set_typing_dots 0 w in
  let w := set_typing_indicator_timer true w in
  _render_messages w.

Definition _stop_typing_indicator (w : ChatWindow) : ChatWindow :=
  match typing_msg_index w with
  | None => w
  | Some idx =>
      let w := set_typing_indicator_timer false w in
      let w := if idx <? length (messages w)
               then set_messages (delete idx (messages w)) w else w in
      let w := set_typing_msg_index None w in
      _render_messages w
  end.

Definition _advance_dots (w : ChatWindow) : ChatWindow :=
  match typing_msg_index w with
  | None => w
  | Some idx =>
      let w := set_typing_dots ((typing_dots w + 1) mod 4) w in
      let dots := repeat "."%char (typing_dots w) in
      let inner_html := lit "<span style='opacity:0.95;'> " ++ dots ++ lit " </span>" in
      let block := _create_message_block w BOT_NAME inner_html in
      let w :=
        if idx <? length (messages w)
        then set_messages (set_html idx block (messages w)) w
        else
          let w := set_messages (messages w ++ [Msg (lit "{BOT_NAME}") block]) w in
          set_typing_msg_index (Some (length (messages w) - 1)) w in
      _render_messages w
  end.

(** *** The reveal *)

Definition _start_reveal (text : str) (w : ChatWindow) : ChatWindow :=
  let w := set_reveal_full_text text w in
  let w := set_reveal_index 0 w in
  let placeholder_html := _create_message_block w BOT_NAME [] in
  let w := set_messages (messages w ++ [Msg BOT_NAME placeholder_html]) w in
  let w := set_reveal_msg_index (Some (length (messages w) - 1)) w in
  let w := set_reveal_timer true w in
  _render_messages w.

(** [None]: the comparison of the index with [None] raises [TypeError]. *)
Definition _reveal_next_char (w : ChatWindow) : option ChatWindow :=
  if length (reveal_full_text w) <=? reveal_index w then
    let w := set_reveal_timer false w in
    let w := set_reveal_full_text [] w in
    let w := set_reveal_index 0 w in
    Some (set_reveal_msg_index None w)
  else
    let w := set_reveal_index (reveal_index w + 1) w in
    let partial := firstn (reveal_index w) (reveal_full_text w) in
    let partial_html := markdown_to_html partial in
    let block := _create_message_block w BOT_NAME partial_html in
    match reveal_msg_index w with
    | None => None
    | Some idx =>
        let w :=
          if idx <? length (messages w)
          then set_messages (set_html idx block (messages w)) w
          else
            let w := set_messages (messages w ++ [Msg (lit "{BOT_NAME}") block]) w in
            set_reveal_msg_index (Some (length (messages w) - 1)) w in
        Some (_render_messages w)
    end.

(** *** Sending and the two slots of the worker's signals *)

(** [send_message], with the text of the input field when it is called. *)
Definition send_message (typed : str) (w : ChatWindow) : ChatWindow :=
  let user_input := strip typed in
  match user_input with
  | [] => w
  | _ :: _ =>
      let w := set_conversation_history
                 (conversation_history w ++ [lit "User: " ++ user_input]) w in
      let user_html := markdown_to_html user_input in
      let w := set_messages
                 (messages w
                    ++ [Msg (lit "You") (_create_message_block w (lit "You") user_html)]) w in
      let w := _render_messages w in
      let w := set_input_enabled false w in
      let w := set_send_enabled false w in
      let w := _start_typing_indicator w in
      set_worker (Some user_input) w
  end.

(** The text kept of a response: without the label the model may have put
    in front. [None]: indexing the result of [split] raises [IndexError]. *)
Definition sanitize (response_text : str) : option str :=
  if startswith (lower (strip response_text)) (lower BOT_NAME ++ lit ":")
  then match split_once ":"%char response_text !! 1 with
       | Some rest => Some (strip rest)
       | None => None
       end
  else Some response_text.

Definition display_response (response_text : str) (w : ChatWindow)
  : option ChatWindow :=
  let w := _stop_typing_indicator w in
  match sanitize response_text with
  | None => None
  | Some response_text =>
      let w := set_conversation_history
                 (conversation_history w ++ [BOT_NAME ++ lit ": " ++ response_text]) w in
      let w := _start_reveal response_text w in
      let w := set_input_enabled true w in
      Some (set_send_enabled true w)
  end.

Definition display_error (error_message : str) (w : ChatWindow) : ChatWindow :=
  let w := _stop_typing_indicator w in
  let w := set_warnings (warnings w ++ [error_message]) w in
  let w := set_input_enabled true w in
  set_send_enabled true w.

(** *** The window after [__init__] *)

Definition initial (dark_mode : bool) (welcome_text : str) : ChatWindow :=
  let w :=
    {| bot_color := if dark_mode then lit "#BB86FC" else lit "#8a51d6";
       user_color := if dark_mode then lit "#FF80AB" else lit "#0066CC";
       messages := [];
       chat_display := [];
       typing_indicator_timer := false;
       typing_dots := 0;
       typing_msg_index := None;
       reveal_timer := false;
       reveal_full_text := [];
       reveal_index := 0;
       reveal_msg_index := None;
       conversation_history := [BOT_NAME ++ lit ": " ++ welcome_text];
       input_enabled := true;
       send_enabled := true;
       warnings := [];
       worker := None |} in
  let w := set_messages
             [Msg BOT_NAME
                (_create_message_block w BOT_NAME (markdown_to_html welcome_text))] w in
  _render_messages w.

(** *** The event loop

    What the interactive thread can be handed: a submission (Enter in the
    input field or a click on the send button, both dead while the widgets
    are disabled), the signal of the worker in flight, and time-outs of the
    two timers while they are active. *)
Inductive event :=
| Submit (typed : str)
| ResultReady (text : str)
| ErrorSignal (message : str)
| TypingTick
| RevealTick.

(** The window after an event; [None] when the event cannot occur in this
    state or its handler raises. *)
Definition handle (e : event) (w : ChatWindow) : option ChatWindow :=
  match e with
  | Submit typed =>
      if input_enabled w && send_enabled w then Some (send_message typed w) else None
  | ResultReady text =>
      match worker w with
      | Some _ => display_response text (set_worker None w)
      | None => None
      end
  | ErrorSignal message =>
      match worker w with
      | Some _ => Some (display_error message (set_worker None w))
      | None => None
      end
  | TypingTick =>
      if typing_indicator_timer w then Some (_advance_dots w) else None
  | RevealTick =>
      if reveal_timer w then _reveal_next_char w else None
  end.

Fixpoint handle_all (es : list event) (w : ChatWindow) : option ChatWindow :=
  match es with
  | [] => Some w
  | e :: es' =>
      match handle e w with
      | Some w' => handle_all es' w'
      | None => None
      end
  end.

(** * Notions used in the statements *)

(** ** Escaped text

    The three characters that HTML reads as markup, the entities that stand
    for them, and the tags the renderer writes. *)

Definition special (c : ascii) : bool :=
  Ascii.eqb c "&" || Ascii.eqb c "<" || Ascii.eqb c ">".

Definition entities : list str := map lit ["&amp;"; "&lt;"; "&gt;"]%string.

Definition inline_tags : list str :=
  map lit ["<code>"; "</code>"; "<b>"; "</b>"; "<i>"; "</i>"]%string.

Definition list_tags : list str :=
  [UL_OPEN; lit "</ul>"; OL_OPEN; lit "</ol>"; lit "<li>"; lit "</li>"; lit "<br>"].

(** What a text may hold after the inline pass, and after the list pass. *)
Definition text_tokens : list str := entities ++ inline_tags.
Definition renderer_tokens : list str := entities ++ inline_tags ++ list_tags.

(** [escaped toks s]: [s] is a sequence of characters that are not special
    and of members of [toks]; so every [&], [<] and [>] of [s] lies in an
    occurrence of an entity or of a tag of [toks]. *)
Inductive escaped (toks : list str) : str -> Prop :=
| escaped_nil : escaped toks []
| escaped_char c s :
    special c = false -> escaped toks s -> escaped toks (c :: s)
| escaped_tok t s :
    In t toks -> escaped toks s -> escaped toks (t ++ s).

(** [c] occurs in no member of [toks]. *)
Definition tok_free (toks : list str) (c : ascii) : bool :=
  negb (existsb (Ascii.eqb c) (concat toks)).

(** The same as a test: at a special character some member of [toks] must
    begin, and the test goes on after it. The fuel bounds the number of
    characters and tokens read; the length of the text is enough. *)
Fixpoint escapedb (toks : list str) (fuel : nat) (s : str) : bool :=
  match s, fuel with
  | [], _ => true
  | _ :: _, 0 => false
  | c :: s', S fuel' =>
      (negb (special c) && escapedb toks fuel' s')
      || existsb (fun t =>
                    match t, starts_with t s with
                    | _ :: _, Some rest => escapedb toks fuel' rest
                    | _, _ => false
                    end) toks
  end.

Definition is_escaped (toks : list str) (s : str) : bool :=
  escapedb toks (length s) s.

(** The item made of a bullet line. *)
Definition bullet_item (line : str) : str :=
  list_item (match li_ul_re line with Some g => g | None => [] end).

(** A character that no step of the renderer reacts to. *)
Definition plain (c : ascii) : bool :=
  negb (special c || Ascii.eqb c "`" || Ascii.eqb c "*" || is_line_boundary c).

(** [needle in hay] *)
Fixpoint contains (needle hay : str) : bool :=
  startswith hay needle
  || match hay with
     | [] => false
     | _ :: hay' => contains needle hay'
     end.

(** ** The outcomes of an invocation, in the words of the specification *)

Inductive ErrorKind :=
| Timeout
| ExecutableNotFound
| EmptyOutput
| Unknown (message : str).

Inductive outcome :=
| Success (text : str)
| Failure (kind : ErrorKind).

Definition failure_message (kind : ErrorKind) : str :=
  match kind with
  | Timeout => lit "Error: Model timed out."
  | ExecutableNotFound =>
      lit "Error: 'ollama' not found. Please install or run Ollama."
  | EmptyOutput => lit "Error: Model returned no output."
  | Unknown message => lit "Error: " ++ message
  end.

(** The signal that carries an outcome to the window. *)
Definition delivered (o : outcome) : signal :=
  match o with
  | Success text => result_ready text
  | Failure kind => error (failure_message kind)
  end.

(** The classification of section 4.2: the process exceeded the bound, the
    runtime is not installed, the process produced no usable text, any other
    failure; otherwise the decoded text. *)
Definition classify (json_dumps : str -> str) (json_loads : str -> option str)
    (subprocess_run : str -> completed) (history : list str) : outcome :=
  match subprocess_run (cmd json_dumps history) with
  | Raised TimeoutExpired => Failure Timeout
  | Raised FileNotFoundError => Failure ExecutableNotFound
  | Raised (OtherException message) => Failure (Unknown message)
  | Returned stdout =>
      let output := strip (match stdout with Some o => o | None => [] end) in
      match json_loads ([QUOTE] ++ output ++ [QUOTE]) with
      | Some [] => Failure EmptyOutput
      | Some (c :: decoded) => Success (c :: decoded)
      | None =>
          match output with
          | [] => Failure EmptyOutput
          | _ :: _ => Success output
          end
      end
  end.

(** ** The conversation store, in the words of the specification *)






(** ** Disciplines of the user *)

(** The event is not a submission made while a reveal is running. *)
Definition waits_for_reveal (e : event) (w : ChatWindow) : bool :=
  match e with
  | Submit _ => negb (reveal_timer w)
  | _ => true
  end.

(** No submission of the sequence is made while a reveal is running. *)
Fixpoint orderly (es : list event) (w : ChatWindow) : bool :=
  match es with
  | [] => true
  | e :: es' =>
      waits_for_reveal e w
      && match handle e w with
         | Some w' => orderly es' w'
         | None => false
         end
  end.

(** ** Invariants of the window *)

(** The typing timer runs only while the window knows where the indicator
    is. *)
Definition indicator_known (w : ChatWindow) : Prop :=
  typing_indicator_timer w = true -> typing_msg_index w <> None.

(** At most one of the two timers runs. *)
Definition one_tick_source (w : ChatWindow) : Prop :=
  typing_indicator_timer w && reveal_timer w = false.

(** The window [wk] is [k] characters into the reveal of [text] that was
    started in the window [w]: the timer runs, the entry appended for the
    reveal is the last one and shows the rendering of the first [k]
    characters, and the display is up to date. *)
Definition revealing (w : ChatWindow) (text : str) (k : nat) (wk : ChatWindow)
  : Prop :=
  reveal_timer wk = true
  /\ reveal_full_text wk = text
  /\ reveal_index wk = k
  /\ reveal_msg_index wk = Some (length (messages w))
  /\ messages wk
     = messages w
         ++ [Msg BOT_NAME
               (_create_message_block w BOT_NAME (markdown_to_html (firstn k text)))]
  /\ bot_color wk = bot_color w
  /\ user_color wk = user_color w
  /\ _render_messages wk = wk.

(** The window is idle as far as the reveal goes: the timer is stopped and
    the state of the reveal is cleared. *)
Definition reveal_idle (w : ChatWindow) : Prop :=
  reveal_timer w = false
  /\ reveal_full_text w = []
  /\ reveal_index w = 0
  /\ reveal_msg_index w = None.

Ltac each_char c :=
  destruct c as [[] [] [] [] [] [] [] []].

(** ** The window as a whole *)

(** The guard of each event in [handle]. *)
Definition enabled (e : event) (w : ChatWindow) : bool :=
  match e with
  | Submit _ => input_enabled w && send_enabled w
  | ResultReady _ | ErrorSignal _ =>
      match worker w with Some _ => true | None => false end
  | TypingTick => typing_indicator_timer w
  | RevealTick => reveal_timer w
  end.

(** The windows the program can be in: those some sequence of events leads to
    from the window after [__init__]. *)
Definition reachable (w : ChatWindow) : Prop :=
  exists es dark_mode welcome_text,
    handle_all es (initial dark_mode welcome_text) = Some w.

(** What [_render_messages] puts on the display for the entries of [w]. *)
Definition rendered (w : ChatWindow) : str :=
  lit "<div style='font-size:16px; line-height:1.4;'>"
    ++ concat (map html (messages w)) ++ lit "</div>".

(** How the attributes of a window hang together. *)
Record coherent (w : ChatWindow) : Prop := {
  coh_worker : worker w = None <-> input_enabled w = true;
  coh_send : send_enabled w = input_enabled w;
  coh_timer : typing_indicator_timer w = negb (input_enabled w);
  coh_typing_index : typing_msg_index w = None <-> input_enabled w = true;
  coh_typing_last :
    forall j, typing_msg_index w = Some j -> S j = length (messages w);
  coh_reveal_range :
    forall i, reveal_msg_index w = Some i ->
      i < length (messages w)
      /\ (forall j, typing_msg_index w = Some j -> i < j);
  coh_reveal_timer : reveal_timer w = true -> reveal_msg_index w <> None;
  coh_reveal_entry :
    forall i, reveal_msg_index w = Some i ->
      messages w !! i
      = Some (Msg BOT_NAME
                (_create_message_block w BOT_NAME
                   (markdown_to_html
                      (firstn (reveal_index w) (reveal_full_text w)))));
  coh_display : chat_display w = rendered w;
  coh_dots : typing_dots w < 4
}.

(** The entry at [i] is neither the indicator nor the target of the reveal,
    and no later one. *)
Definition settled (i : nat) (w : ChatWindow) : Prop :=
  i < length (messages w)
  /\ (forall r, reveal_msg_index w = Some r -> i < r)
  /\ (forall j, typing_msg_index w = Some j -> i < j).

(** The content of the indicator after a tick that leaves [n] dots. *)
Definition dots_html (n : nat) : str :=
  lit "<span style='opacity:0.95;'> " ++ repeat "."%char n ++ lit " </span>".

(** The entry [send_message] makes of what the user typed. *)
Definition user_entry (w : ChatWindow) (user_input : str) : Message :=
  Msg (lit "You") (_create_message_block w (lit "You") (markdown_to_html user_input)).

(** The window [wk] waits for the reply to [user_input], sent from the
    window [w]; the indicator has ticked [k] times. *)
Definition indicating (w : ChatWindow) (user_input : str) (k : nat)
    (wk : ChatWindow) : Prop :=
  typing_indicator_timer wk = true
  /\ typing_msg_index wk = Some (S (length (messages w)))
  /\ typing_dots wk = k mod 4
  /\ messages wk
     = messages w
         ++ [user_entry w user_input;
             Msg BOT_NAME
               (_create_message_block w BOT_NAME
                  (match k with 0 => lit " " | S _ => dots_html (k mod 4) end))]
  /\ conversation_history wk
     = conversation_history w ++ [lit "User: " ++ user_input]
  /\ worker wk = Some user_input
  /\ warnings wk = warnings w
  /\ bot_color wk = bot_color w
  /\ user_color wk = user_color w.


(** ** The renderer as a whole *)

(** The lines [out_lines] holds when they are joined, on line 161. *)
Definition rendered_lines (text : str) : list str :=
  close_lists
    (fold_left list_step
       (splitlines (italic (bold (inline_code (html_escape text)))))
       (ListState [] false false)).

(** How many of the lines are the line [t]. *)
Definition count_line (t : str) (ls : list str) : nat :=
  length (List.filter (str_eqb t) ls).

(** What the loop over the lines keeps true: of each kind of list, as many
    opened as closed, and one more while the flag is set. *)
Definition balanced (st : list_state) : Prop :=
  count_line UL_OPEN (out_lines st)
  = count_line (lit "</ul>") (out_lines st) + (if in_ul st then 1 else 0)
  /\ count_line OL_OPEN (out_lines st)
     = count_line (lit "</ol>") (out_lines st) + (if in_ol st then 1 else 0).

(** The four lines that open and close lists. *)
Definition list_brackets : list str :=
  [UL_OPEN; lit "</ul>"; OL_OPEN; lit "</ol>"].

(** ** The theme and the input field *)





(** [adjust_input_height], from [new_height], the height computed for the
    document, after [int]. The result is the height set on the input
    field. *)
Definition adjust_input_height (new_height : Z) : Z :=
  let min_height := 40%Z in
  let max_height := 150%Z in
  let new_height := if (new_height <? min_height)%Z then min_height else new_height in
  Z.min new_height max_height.
(** * Verification

    ** The regular expressions *)

Lemma re_sub_step d o c s :
  re_sub d o c s =
  match match_delim d s with
  | Some (g, rest) => o ++ g ++ c ++ re_sub d o c rest
  | None => match s with [] => [] | x :: s' => x :: re_sub d o c s' end
  end.
Proof.
  rewrite re_sub_equation_1.
  destruct (inspect (match_delim d s)) as [[[g rest]|] e].
  - simpl. rewrite e. reflexivity.
  - destruct s; simpl; rewrite e; reflexivity.
Qed.

Lemma starts_with_self d r : starts_with d (d ++ r) = Some r.
Proof.
  induction d as [|a d IH]; simpl; [reflexivity|].
  rewrite Ascii.eqb_refl. exact IH.
Qed.

Lemma starts_with_head_differs h d x s :
  h <> x -> starts_with (h :: d) (x :: s) = None.
Proof.
  intros Hne. simpl. destruct (Ascii.eqb_spec h x); [contradiction|reflexivity].
Qed.

Lemma lazy_until_found h d g r :
  ~ In h g -> Forall (fun c => isdot c = true) g ->
  lazy_until (h :: d) (g ++ (h :: d) ++ r) = Some (g, r).
Proof.
  induction g as [|x g IH]; intros Hin Hdot.
  - change ([] ++ (h :: d) ++ r) with ((h :: d) ++ r).
    destruct ((h :: d) ++ r) eqn:E; [discriminate|].
    unfold lazy_until; fold lazy_until. rewrite <- E, starts_with_self. reflexivity.
  - inversion Hdot as [|? ? Hx Hg]; subst.
    change ((x :: g) ++ (h :: d) ++ r) with (x :: (g ++ (h :: d) ++ r)).
    unfold lazy_until; fold lazy_until.
    rewrite starts_with_head_differs by (intros ->; apply Hin; left; reflexivity).
    rewrite Hx, IH; auto. intros H; apply Hin; right; exact H.
Qed.

Lemma match_delim_found h d x g r :
  isdot x = true -> ~ In h g -> Forall (fun c => isdot c = true) g ->
  match_delim (h :: d) ((h :: d) ++ x :: g ++ (h :: d) ++ r) = Some (x :: g, r).
Proof.
  intros Hx Hin Hdot. unfold match_delim.
  rewrite starts_with_self, Hx, lazy_until_found; auto.
Qed.

Lemma match_delim_head_differs h d x s :
  h <> x -> match_delim (h :: d) (x :: s) = None.
Proof.
  intros Hne. unfold match_delim. now rewrite starts_with_head_differs.
Qed.

Lemma re_sub_nil h d o c : re_sub (h :: d) o c [] = [].
Proof. rewrite re_sub_step. reflexivity. Qed.

Lemma re_sub_skip h d o c p s :
  ~ In h p -> re_sub (h :: d) o c (p ++ s) = p ++ re_sub (h :: d) o c s.
Proof.
  induction p as [|x p IH]; intros Hin; [reflexivity|].
  simpl. rewrite re_sub_step, match_delim_head_differs.
  - f_equal. apply IH. intros H; apply Hin; right; exact H.
  - intros ->. apply Hin. left; reflexivity.
Qed.

Lemma re_sub_absent h d o c s :
  ~ In h s -> re_sub (h :: d) o c s = s.
Proof.
  intros Hin. rewrite <- (app_nil_r s) at 1.
  rewrite re_sub_skip, re_sub_nil, app_nil_r; auto.
Qed.

(** ** Escaped text *)

Lemma existsb_eqb_In c (s : str) : existsb (Ascii.eqb c) s = true <-> In c s.
Proof.
  rewrite existsb_exists. split.
  - intros (x & Hx & E). apply Ascii.eqb_eq in E. now subst.
  - intros H. exists c. split; [exact H | apply Ascii.eqb_refl].
Qed.

Lemma tok_free_not_in toks c t :
  tok_free toks c = true -> In t toks -> ~ In c t.
Proof.
  unfold tok_free. intros H Ht Hc.
  apply negb_true_iff in H. apply not_true_iff_false in H. apply H.
  apply existsb_eqb_In, in_concat. exists t. split; assumption.
Qed.

Lemma escaped_app toks a b :
  escaped toks a -> escaped toks b -> escaped toks (a ++ b).
Proof.
  induction 1; intros Hb; simpl; auto.
  - constructor; auto.
  - rewrite <- app_assoc. apply escaped_tok; auto.
Qed.

Lemma escaped_mono toks toks' s :
  incl toks toks' -> escaped toks s -> escaped toks' s.
Proof.
  intros Hincl. induction 1.
  - constructor.
  - constructor; auto.
  - apply escaped_tok; auto.
Qed.

Lemma escaped_token toks t : In t toks -> escaped toks t.
Proof.
  intros H. rewrite <- (app_nil_r t). apply escaped_tok; [exact H | constructor].
Qed.

Lemma app_eq_app_cons (t s a b : str) d :
  t ++ s = a ++ d :: b -> ~ In d t ->
  exists a', a = t ++ a' /\ s = a' ++ d :: b.
Proof.
  revert a. induction t as [|x t IH]; intros a E Hin.
  - exists a. split; [reflexivity | exact E].
  - destruct a as [|y a]; simpl in E.
    + injection E as -> _. exfalso. apply Hin. left; reflexivity.
    + injection E as -> E. destruct (IH a E) as (a' & -> & ->).
      * intros H. apply Hin. right; exact H.
      * exists a'. split; reflexivity.
Qed.

(** A text can be cut at a character that occurs in no token. *)
Lemma escaped_split toks a d b :
  tok_free toks d = true ->
  escaped toks (a ++ d :: b) -> escaped toks a /\ escaped toks b.
Proof.
  intros Hd H. remember (a ++ d :: b) as s eqn:E. revert a E.
  induction H as [|c s Hc H IH|t s Ht H IH]; intros a E.
  - destruct a; discriminate.
  - destruct a as [|y a]; simpl in E.
    + injection E as -> ->. split; [constructor | exact H].
    + injection E as -> ->. destruct (IH a eq_refl) as [Ha Hb].
      split; [constructor; assumption | exact Hb].
  - destruct (app_eq_app_cons t s a b d E) as (a' & -> & ->).
    + eapply tok_free_not_in; eauto.
    + destruct (IH a' eq_refl) as [Ha Hb].
      split; [apply escaped_tok; assumption | exact Hb].
Qed.

Lemma escaped_drop_free toks d b :
  Forall (fun c => tok_free toks c = true) d ->
  escaped toks (d ++ b) -> escaped toks b.
Proof.
  induction 1 as [|c d Hc Hd IH]; intros H; [exact H|].
  apply IH. apply (escaped_split toks [] c (d ++ b) Hc H).
Qed.

Lemma escaped_split_str toks a c d b :
  Forall (fun c => tok_free toks c = true) (c :: d) ->
  escaped toks (a ++ (c :: d) ++ b) -> escaped toks a /\ escaped toks b.
Proof.
  intros Hd H. inversion Hd as [|? ? Hc Hd']; subst.
  apply escaped_split in H as [Ha Hb]; [|exact Hc].
  split; [exact Ha | eapply escaped_drop_free; eauto].
Qed.


Lemma take_drop_while p s : take_while p s ++ drop_while p s = s.
Proof.
  induction s as [|c s IH]; simpl; [reflexivity|].
  destruct (p c); simpl; [now rewrite IH | reflexivity].
Qed.

Lemma drop_while_head p s c r : drop_while p s = c :: r -> p c = false.
Proof.
  induction s as [|x s IH]; simpl; [discriminate|].
  destruct (p x) eqn:E; [exact IH|]. now intros [= <- _].
Qed.


(** ** The inline substitutions keep a text escaped *)

Lemma escaped_re_sub toks h d o c :
  Forall (fun t => t <> []) toks ->
  Forall (fun x => tok_free toks x = true) (h :: d) ->
  In o toks -> In c toks ->
  forall s, escaped toks s -> escaped toks (re_sub (h :: d) o c s).
Proof.
  intros Hne Hd Ho Hc s.
  induction s as [s IH] using (induction_ltof1 _ (@length ascii)).
  unfold ltof in IH. intros H.
  inversion Hd as [|? ? Hh _]; subst.
  inversion H as [|x s' Hx Hs'|t s' Ht Hs']; subst.
  - rewrite re_sub_nil. constructor.
  - rewrite re_sub_step.
    destruct (match_delim (h :: d) (x :: s')) as [[g rest]|] eqn:E.
    + pose proof (match_delim_shorter _ _ _ _ E) as Hlt.
      apply match_delim_app in E as [E _]. rewrite E in H.
      apply (escaped_split_str toks []) in H as [_ H]; [|exact Hd].
      apply escaped_split_str in H as [Hg Hrest]; [|exact Hd].
      apply escaped_app; [now apply escaped_token|].
      apply escaped_app; [exact Hg|].
      apply escaped_tok; [exact Hc|]. apply IH; assumption.
    + constructor; [exact Hx|]. apply IH; [simpl; lia | exact Hs'].
  - rewrite re_sub_skip by (eapply tok_free_not_in; eauto).
    apply escaped_tok; [exact Ht|]. apply IH; [|exact Hs'].
    pose proof (proj1 (List.Forall_forall _ _) Hne t Ht).
    destruct t; [congruence|]. rewrite length_app. simpl. lia.
Qed.

(** ** Escaping *)

Lemma replace_app old new a b :
  replace old new (a ++ b) = replace old new a ++ replace old new b.
Proof. unfold replace. apply flat_map_app. Qed.

Lemma html_escape_cons c s : html_escape (c :: s) = html_escape [c] ++ html_escape s.
Proof.
  unfold html_escape. change (c :: s) with ([c] ++ s).
  now rewrite !replace_app.
Qed.

Lemma html_escape_plain c : special c = false -> html_escape [c] = [c].
Proof. each_char c; intros H; try discriminate H; reflexivity. Qed.

Lemma html_escape_special c :
  special c = true -> In (html_escape [c]) entities.
Proof.
  each_char c; intros H; try discriminate H; vm_compute; tauto.
Qed.

Lemma html_escape_escaped s : escaped entities (html_escape s).
Proof.
  induction s as [|c s IH]; [constructor|].
  rewrite html_escape_cons. destruct (special c) eqn:E.
  - apply escaped_tok; [now apply html_escape_special | exact IH].
  - rewrite html_escape_plain by exact E. constructor; assumption.
Qed.

Lemma html_escape_id s :
  Forall (fun c => special c = false) s -> html_escape s = s.
Proof.
  induction 1 as [|c s Hc Hs IH]; [reflexivity|].
  rewrite html_escape_cons, html_escape_plain, IH by assumption. reflexivity.
Qed.

(** ** Lines *)

Lemma splitlines_boundary_free s :
  s <> [] -> Forall (fun c => is_line_boundary c = false) s -> splitlines s = [s].
Proof.
  intros Hne H. induction H as [|c s Hc Hs IH]; [congruence|].
  simpl. rewrite Hc. destruct s as [|c' s']; [reflexivity|].
  rewrite IH by discriminate. reflexivity.
Qed.

Lemma splitlines_skip p s :
  Forall (fun c => is_line_boundary c = false) p ->
  splitlines (p ++ s) = fold_right cons_line (splitlines s) p.
Proof.
  induction 1 as [|c p Hc Hp IH]; [reflexivity|].
  simpl. now rewrite Hc, IH.
Qed.

Lemma cons_lines p ls :
  fold_right cons_line ls p =
  match p, ls with
  | [], _ => ls
  | _ :: _, [] => [p]
  | _ :: _, l :: ls' => (p ++ l) :: ls'
  end.
Proof.
  induction p as [|c p IH]; [reflexivity|].
  simpl. rewrite IH. destruct p, ls; reflexivity.
Qed.

Lemma splitlines_after_LF s :
  splitlines (LF :: s) = [] :: splitlines s.
Proof. destruct s; reflexivity. Qed.

Lemma escaped_splitlines toks s :
  (forall c, is_line_boundary c = true -> tok_free toks c = true) ->
  escaped toks s -> Forall (escaped toks) (splitlines s).
Proof.
  intros Hb. induction 1 as [|c s Hc H IH|t s Ht H IH].
  - constructor.
  - simpl. destruct (is_line_boundary c) eqn:E.
    + destruct s as [|c' s']; [repeat constructor|].
      destruct (Ascii.eqb c CR && Ascii.eqb c' LF) eqn:E2.
      * apply andb_true_iff in E2 as [_ E2]. apply Ascii.eqb_eq in E2. subst c'.
        rewrite splitlines_after_LF in IH. exact IH.
      * constructor; [constructor | exact IH].
    + destruct (splitlines s) as [|l ls]; simpl.
      * repeat constructor. exact Hc.
      * inversion IH; subst. constructor; [constructor|]; assumption.
  - rewrite splitlines_skip, cons_lines.
    + destruct t as [|x t']; [exact IH|].
      destruct (splitlines s) as [|l ls].
      * constructor; [now apply escaped_token | constructor].
      * inversion IH; subst. constructor; [|assumption].
        apply escaped_tok; assumption.
    + apply List.Forall_forall. intros c Hc.
      destruct (is_line_boundary c) eqn:E; [|reflexivity].
      exfalso. eapply tok_free_not_in; eauto.
Qed.


(** ** The list pass *)




Lemma boundary_tok_free c :
  is_line_boundary c = true -> tok_free text_tokens c = true.
Proof. each_char c; intros H; try discriminate H; reflexivity. Qed.












Lemma text_tokens_nonempty : Forall (fun t : str => t <> []) text_tokens.
Proof. repeat constructor; discriminate. Qed.

Lemma inline_escaped text :
  escaped text_tokens text ->
  escaped text_tokens (italic (bold (inline_code text))).
Proof.
  intros H. unfold italic, bold, inline_code.
  repeat (apply escaped_re_sub;
          [exact text_tokens_nonempty | repeat constructor | vm_compute; tauto
          | vm_compute; tauto | ]).
  exact H.
Qed.

Lemma markdown_pipeline text :
  markdown_to_html text =
  render_lists (italic (bold (inline_code (html_escape text)))).
Proof. destruct text; reflexivity. Qed.

Lemma escapedb_sound toks fuel s :
  escapedb toks fuel s = true -> escaped toks s.
Proof.
  revert s. induction fuel as [|fuel IH]; intros [|c s] H;
    [constructor | discriminate H | constructor |].
  cbn [escapedb] in H. apply orb_true_iff in H as [H|H].
  - apply andb_true_iff in H as [Hc Hs]. apply negb_true_iff in Hc.
    apply escaped_char; auto.
  - apply existsb_exists in H as (t & Ht & H).
    destruct t as [|x t]; [discriminate H|].
    destruct (starts_with (x :: t) (c :: s)) as [rest|] eqn:E; [|discriminate H].
    apply starts_with_app in E. rewrite E. apply escaped_tok; auto.
Qed.

Lemma escapedb_complete toks s :
  escaped toks s -> forall fuel, length s <= fuel -> escapedb toks fuel s = true.
Proof.
  induction 1 as [|c s Hc H IH|t s Ht H IH]; intros fuel Hfuel.
  - destruct fuel; reflexivity.
  - destruct fuel as [|fuel]; [cbn in Hfuel; lia|].
    cbn [escapedb]. rewrite Hc, IH by (cbn in Hfuel; lia). reflexivity.
  - destruct t as [|x t]; [apply IH; exact Hfuel|].
    destruct fuel as [|fuel]; [cbn in Hfuel; lia|].
    change ((x :: t) ++ s) with (x :: (t ++ s)).
    cbn [escapedb]. apply orb_true_iff. right.
    apply existsb_exists. exists (x :: t). split; [exact Ht|].
    change (x :: (t ++ s)) with ((x :: t) ++ s). rewrite starts_with_self.
    apply IH. rewrite length_app in Hfuel. cbn in Hfuel. lia.
Qed.

Lemma is_escaped_iff toks s : is_escaped toks s = true <-> escaped toks s.
Proof.
  split; [apply escapedb_sound|]. intros H. now apply escapedb_complete.
Qed.

(** The test refuses a tag the renderer does not write. *)
Example script_not_escaped :
  is_escaped renderer_tokens (lit "a <script> b") = false.
Proof. reflexivity. Qed.


(** ** Code spans *)

Lemma plain_facts c :
  plain c = true ->
  special c = false /\ c <> "`"%char /\ c <> "*"%char
  /\ is_line_boundary c = false /\ isdot c = true.
Proof. each_char c; intros H; try discriminate H; repeat split; discriminate. Qed.

Lemma plain_all (P : ascii -> Prop) x :
  (forall c, plain c = true -> P c) ->
  Forall (fun c => plain c = true) x -> Forall P x.
Proof. intros HP H. eapply List.Forall_impl; [|exact H]. exact HP. Qed.

Lemma plain_not_in x c :
  plain c = false -> Forall (fun c => plain c = true) x -> ~ In c x.
Proof.
  intros Hc H Hin. apply (proj1 (List.Forall_forall _ _) H) in Hin. congruence.
Qed.

Lemma re_sub_match h d o c x g r :
  isdot x = true -> ~ In h g -> Forall (fun c => isdot c = true) g ->
  re_sub (h :: d) o c ((h :: d) ++ x :: g ++ (h :: d) ++ r)
  = o ++ (x :: g) ++ c ++ re_sub (h :: d) o c r.
Proof.
  intros Hx Hin Hdot. rewrite re_sub_step, match_delim_found by assumption.
  reflexivity.
Qed.

Lemma re_sub_lone h o c y s :
  h <> y ->
  re_sub [h; h] o c (h :: y :: s) = h :: re_sub [h; h] o c (y :: s).
Proof.
  intros Hne. rewrite re_sub_step. unfold match_delim. simpl.
  rewrite Ascii.eqb_refl. destruct (Ascii.eqb_spec h y); [contradiction|].
  reflexivity.
Qed.

Lemma render_lists_single_line (s : str) c :
  Forall (fun c => is_line_boundary c = false) (c :: s) ->
  isspace c = false -> isdecimal c = false ->
  Ascii.eqb c "-" || Ascii.eqb c "*" = false ->
  render_lists (c :: s) = c :: s.
Proof.
  intros Hb Hs Hd Hm. unfold render_lists.
  rewrite splitlines_boundary_free by (discriminate || exact Hb).
  cbn [fold_left]. unfold list_step, li_ul_re, li_ol_re.
  cbn [drop_while]. rewrite Hs, Hd, Hm. reflexivity.
Qed.





(** ** Lists *)

Lemma list_step_bullet st l :
  li_ul_re l <> None ->
  list_step st l
  = ListState ((if in_ul st then out_lines st else out_lines st ++ [UL_OPEN])
                 ++ [bullet_item l]) true (in_ol st).
Proof.
  intros H. unfold list_step, bullet_item.
  destruct (li_ul_re l); [reflexivity | congruence].
Qed.

Lemma bullet_run_open lines st :
  in_ul st = true ->
  Forall (fun l => li_ul_re l <> None) lines ->
  fold_left list_step lines st
  = ListState (out_lines st ++ map bullet_item lines) true (in_ol st).
Proof.
  intros Hul H. revert st Hul.
  induction H as [|l ls Hl Hls IH]; intros st Hul.
  - cbn. rewrite app_nil_r. destruct st; cbn in *. now subst.
  - cbn [fold_left]. rewrite list_step_bullet by exact Hl.
    rewrite IH by reflexivity. cbn [out_lines in_ol map].
    rewrite Hul, <- app_assoc. reflexivity.
Qed.

(** A text of bullet lines only makes one list with one item for each
    line. *)
Lemma bullet_run_one_list l lines :
  Forall (fun l => li_ul_re l <> None) (l :: lines) ->
  close_lists (fold_left list_step (l :: lines) (ListState [] false false))
  = UL_OPEN :: map bullet_item (l :: lines) ++ [lit "</ul>"].
Proof.
  intros H. inversion H as [|? ? Hl Hls]; subst.
  cbn [fold_left]. rewrite list_step_bullet by exact Hl.
  rewrite bullet_run_open by (reflexivity || exact Hls).
  unfold close_lists. cbn [in_ul in_ol out_lines map app]. reflexivity.
Qed.

(** C2. On a bullet line followed by a numbered line the renderer opens the
    [<ol>] while the [<ul>] is still open, and closes the two in the order
    they were opened: the [<ul>] is not closed before the [<ol>] opens. *)
Theorem bullet_then_numbered_not_closed :
  close_lists (fold_left list_step [lit "- a"; lit "1. b"] (ListState [] false false))
  = [UL_OPEN; lit "<li>a</li>"; OL_OPEN; lit "<li>b</li>"; lit "</ul>"; lit "</ol>"]
  /\ markdown_to_html (lit "- a" ++ [LF] ++ lit "1. b")
     = UL_OPEN ++ lit "<br><li>a</li><br>" ++ OL_OPEN
         ++ lit "<br><li>b</li><br></ul><br></ol>".
Proof. split; vm_compute; reflexivity. Qed.

(** * More on the renderer *)

(** ** Lists are closed as often as they are opened *)

Lemma str_eqb_eq s t : str_eqb s t = true <-> s = t.
Proof.
  revert t. induction s as [|a s IH]; intros [|b t]; simpl;
    try (split; [discriminate | congruence]); [tauto|].
  rewrite andb_true_iff, Ascii.eqb_eq, IH. split.
  - intros [-> ->]; reflexivity.
  - intros [= -> ->]; auto.
Qed.

Lemma str_eqb_neq s t : s <> t -> str_eqb s t = false.
Proof.
  intros H. destruct (str_eqb s t) eqn:E; [|reflexivity].
  apply str_eqb_eq in E. contradiction.
Qed.

Lemma count_line_app t a b :
  count_line t (a ++ b) = count_line t a + count_line t b.
Proof. unfold count_line. now rewrite List.filter_app, length_app. Qed.

Lemma count_line_one t l : count_line t [l] = if str_eqb t l then 1 else 0.
Proof. unfold count_line. simpl. now destruct (str_eqb t l). Qed.

Lemma escaped_no_bracket l : escaped text_tokens l -> ~ In l list_brackets.
Proof.
  intros H Hin. apply is_escaped_iff in H.
  destruct Hin as [<-|[<-|[<-|[<-|[]]]]]; vm_compute in H; discriminate H.
Qed.

Lemma str_eqb_no_bracket t l :
  In t list_brackets -> ~ In l list_brackets -> str_eqb t l = false.
Proof. intros Ht Hl. apply str_eqb_neq. intros ->. contradiction. Qed.

(** Evaluates the comparisons of the lines that are known. *)
Ltac count_lines :=
  repeat rewrite count_line_app; repeat rewrite count_line_one;
  repeat match goal with
    | |- context [str_eqb ?t ?l] =>
        let b := eval vm_compute in (str_eqb t l) in
        match b with
        | true => change (str_eqb t l) with true
        | false => change (str_eqb t l) with false
        end
    | H : ~ In ?l list_brackets |- context [str_eqb ?t ?l] =>
        rewrite (str_eqb_no_bracket t l) by (assumption || (vm_compute; tauto))
    end;
  cbv iota.

Lemma list_step_balanced st line :
  ~ In line list_brackets -> balanced st -> balanced (list_step st line).
Proof.
  intros Hline [Hul Hol]. unfold balanced, list_step.
  destruct (li_ul_re line) as [g|]; [|destruct (li_ol_re line) as [g|]];
    destruct (in_ul st), (in_ol st); cbn [out_lines in_ul in_ol];
    count_lines; lia.
Qed.

Lemma fold_list_step_balanced lines st :
  Forall (fun l => ~ In l list_brackets) lines ->
  balanced st -> balanced (fold_left list_step lines st).
Proof.
  intros H. revert st. induction H as [|l ls Hl Hls IH]; intros st Hst;
    [exact Hst|].
  cbn [fold_left]. apply IH. now apply list_step_balanced.
Qed.

Lemma close_lists_balanced st :
  balanced st ->
  count_line UL_OPEN (close_lists st) = count_line (lit "</ul>") (close_lists st)
  /\ count_line OL_OPEN (close_lists st) = count_line (lit "</ol>") (close_lists st).
Proof.
  intros [Hul Hol]. unfold close_lists.
  destruct (in_ul st), (in_ol st); count_lines; lia.
Qed.

(** X13. For every text the lines of the output hold as many lines that open
    a bullet list as lines that close one, and as many that open a numbered
    list as that close one; the output is these lines joined by [<br>]. *)
Theorem list_brackets_balanced (text : str) :
  markdown_to_html text = join (lit "<br>") (rendered_lines text)
  /\ count_line UL_OPEN (rendered_lines text)
     = count_line (lit "</ul>") (rendered_lines text)
  /\ count_line OL_OPEN (rendered_lines text)
     = count_line (lit "</ol>") (rendered_lines text).
Proof.
  split; [apply markdown_pipeline|].
  apply close_lists_balanced, fold_list_step_balanced.
  - eapply List.Forall_impl; [intros l; apply escaped_no_bracket|].
    apply escaped_splitlines; [exact boundary_tok_free|].
    apply inline_escaped. eapply escaped_mono; [|apply html_escape_escaped].
    intros t Ht. apply in_or_app. left; exact Ht.
  - split; reflexivity.
Qed.

(** ** Text without markers *)

Lemma boundary_not_special c : is_line_boundary c = true -> special c = false.
Proof. each_char c; intros H; try discriminate H; reflexivity. Qed.

Lemma space_not_special c : isspace c = true -> special c = false.
Proof. each_char c; intros H; try discriminate H; reflexivity. Qed.

Lemma decimal_not_special c : isdecimal c = true -> special c = false.
Proof. each_char c; intros H; try discriminate H; reflexivity. Qed.

Lemma html_escape_cons_plain c s :
  special c = false -> html_escape (c :: s) = c :: html_escape s.
Proof. intros H. now rewrite html_escape_cons, html_escape_plain. Qed.

(** What stands for a special character: an ampersand, then letters and a
    semicolon, none of them a line boundary. *)
Lemma html_escape_cons_special c s :
  special c = true ->
  exists x t,
    html_escape (c :: s) = "&"%char :: x :: t ++ html_escape s
    /\ Forall (fun c => is_line_boundary c = false) ("&"%char :: x :: t).
Proof.
  intros H. rewrite html_escape_cons.
  each_char c; try discriminate H;
    eexists _, _; (split; [reflexivity | repeat constructor]).
Qed.

Lemma html_escape_keeps_out c s :
  tok_free entities c = true -> ~ In c s -> ~ In c (html_escape s).
Proof.
  intros Hc. induction s as [|x s IH]; intros Hin; [exact Hin|].
  rewrite html_escape_cons. intros H. apply in_app_or in H as [H|H].
  - destruct (special x) eqn:E.
    + eapply tok_free_not_in; [exact Hc | apply html_escape_special, E | exact H].
    + rewrite html_escape_plain in H by exact E.
      apply Hin. destruct H as [->|[]]. left; reflexivity.
  - apply IH; [|exact H]. intros H'. apply Hin. right; exact H'.
Qed.

Lemma splitlines_html_escape_le n s :
  length s <= n -> splitlines (html_escape s) = map html_escape (splitlines s).
Proof.
  revert s. induction n as [|n IH]; intros [|c s] Hn;
    try reflexivity; [cbn in Hn; lia|].
  cbn [length] in Hn. destruct (is_line_boundary c) eqn:Eb.
  - rewrite html_escape_cons_plain by now apply boundary_not_special.
    cbn [splitlines]. rewrite Eb. destruct s as [|c' s']; [reflexivity|].
    destruct (special c') eqn:Es.
    + destruct (html_escape_cons_special c' s' Es) as (x & t & E & _).
      assert (Ascii.eqb c' LF = false) as Hc'
        by (revert Es; clear; each_char c'; intros H; try discriminate H; reflexivity).
      rewrite Hc', andb_false_r. cbn [map]. rewrite <- IH by lia.
      rewrite E. cbn [splitlines]. rewrite andb_false_r. reflexivity.
    + rewrite html_escape_cons_plain by exact Es.
      destruct (Ascii.eqb c CR && Ascii.eqb c' LF); cbn [map].
      * rewrite IH by (cbn in Hn; lia). reflexivity.
      * rewrite <- IH by lia. rewrite html_escape_cons_plain by exact Es.
        reflexivity.
  - cbn [splitlines]. rewrite Eb.
    assert (exists p, html_escape (c :: s) = p ++ html_escape s
                      /\ p = html_escape [c] /\ p <> []
                      /\ Forall (fun c => is_line_boundary c = false) p)
      as (p & E & Ep & Hne & Hp).
    { destruct (special c) eqn:Es.
      - destruct (html_escape_cons_special c [] Es) as (x & t & E & Hp).
        change (html_escape []) with (@nil ascii) in E. rewrite app_nil_r in E.
        exists ("&"%char :: x :: t). rewrite html_escape_cons, E.
        repeat split; [discriminate | exact Hp].
      - exists [c]. rewrite html_escape_cons, html_escape_plain by exact Es.
        repeat split; [discriminate | repeat constructor; exact Eb]. }
    rewrite E, splitlines_skip, cons_lines by exact Hp.
    rewrite IH by lia. destruct p as [|p0 p']; [congruence|].
    destruct (splitlines s) as [|l ls]; cbn [cons_line map].
    + now rewrite Ep.
    + rewrite (html_escape_cons c l), <- Ep. reflexivity.
Qed.

Lemma splitlines_html_escape s :
  splitlines (html_escape s) = map html_escape (splitlines s).
Proof. now apply (splitlines_html_escape_le (length s)). Qed.

(** Escaping leaves alone the characters a class [p] skips, when the class
    holds no special character and not the ampersand. *)
Lemma drop_while_html_escape p s :
  (forall c, p c = true -> special c = false) -> p "&"%char = false ->
  drop_while p (html_escape s) = html_escape (drop_while p s).
Proof.
  intros Hp Hamp. induction s as [|c s IH]; [reflexivity|].
  cbn [drop_while]. destruct (p c) eqn:E.
  - rewrite html_escape_cons_plain by auto. cbn [drop_while]. now rewrite E.
  - destruct (special c) eqn:Es.
    + destruct (html_escape_cons_special c s Es) as (x & t & -> & _).
      cbn [drop_while]. now rewrite Hamp.
    + rewrite html_escape_cons_plain by exact Es. cbn [drop_while]. now rewrite E.
Qed.

Lemma li_ul_re_html_escape l :
  li_ul_re l = None -> li_ul_re (html_escape l) = None.
Proof.
  unfold li_ul_re.
  rewrite drop_while_html_escape by (exact space_not_special || reflexivity).
  destruct (drop_while isspace l) as [|c r]; [reflexivity|].
  destruct (special c) eqn:Es.
  - destruct (html_escape_cons_special c r Es) as (x & t & -> & _). reflexivity.
  - rewrite html_escape_cons_plain by exact Es.
    destruct (Ascii.eqb c "-" || Ascii.eqb c "*"); [|reflexivity].
    destruct r as [|w r']; [reflexivity|].
    destruct (isspace w) eqn:Ew; [discriminate|]. intros _.
    destruct (special w) eqn:Esw.
    + destruct (html_escape_cons_special w r' Esw) as (x & t & -> & _). reflexivity.
    + rewrite html_escape_cons_plain by exact Esw. now rewrite Ew.
Qed.

Lemma li_ol_re_html_escape l :
  li_ol_re l = None -> li_ol_re (html_escape l) = None.
Proof.
  unfold li_ol_re.
  rewrite drop_while_html_escape by (exact space_not_special || reflexivity).
  destruct (drop_while isspace l) as [|c r]; [reflexivity|].
  destruct (special c) eqn:Es.
  - destruct (html_escape_cons_special c r Es) as (x & t & -> & _). reflexivity.
  - rewrite html_escape_cons_plain by exact Es.
    destruct (isdecimal c); [|reflexivity].
    rewrite drop_while_html_escape by (exact decimal_not_special || reflexivity).
    destruct (drop_while isdecimal r) as [|p [|w r']]; [reflexivity| |].
    + intros _. destruct (special p) eqn:Esp.
      * destruct (html_escape_cons_special p [] Esp) as (x & t & -> & _). reflexivity.
      * rewrite html_escape_cons_plain by exact Esp. reflexivity.
    + destruct (special p) eqn:Esp.
      * destruct (html_escape_cons_special p (w :: r') Esp) as (x & t & -> & _).
        reflexivity.
      * rewrite html_escape_cons_plain by exact Esp.
        destruct (Ascii.eqb p "."); [|destruct (special w) eqn:Esw].
        -- cbn [andb]. destruct (isspace w) eqn:Ew; [discriminate|]. intros _.
           destruct (special w) eqn:Esw.
           ++ destruct (html_escape_cons_special w r' Esw) as (x & t & -> & _).
              reflexivity.
           ++ rewrite html_escape_cons_plain by exact Esw. now rewrite Ew.
        -- destruct (html_escape_cons_special w r' Esw) as (x & t & -> & _).
           reflexivity.
        -- rewrite html_escape_cons_plain by exact Esw. reflexivity.
Qed.

Lemma list_step_other st l :
  li_ul_re l = None -> li_ol_re l = None ->
  in_ul st = false -> in_ol st = false ->
  list_step st l = ListState (out_lines st ++ [l]) false false.
Proof. intros Hu Ho Hul Hol. unfold list_step. now rewrite Hu, Ho, Hul, Hol. Qed.

Lemma fold_list_step_other lines st :
  Forall (fun l => li_ul_re l = None /\ li_ol_re l = None) lines ->
  in_ul st = false -> in_ol st = false ->
  fold_left list_step lines st = ListState (out_lines st ++ lines) false false.
Proof.
  intros H. revert st. induction H as [|l ls [Hu Ho] Hls IH]; intros st Hul Hol.
  - rewrite app_nil_r. destruct st; cbn in *; now subst.
  - cbn [fold_left]. rewrite list_step_other by assumption.
    rewrite IH by reflexivity. cbn [out_lines]. now rewrite <- app_assoc.
Qed.

(** X14. A text without backtick and asterisk none of whose lines is a list
    line is rendered line by line: each line escaped, the lines joined by
    [<br>]. *)
Theorem text_rendered_by_line (text : str) :
  ~ In "`"%char text -> ~ In "*"%char text ->
  Forall (fun l => li_ul_re l = None /\ li_ol_re l = None) (splitlines text) ->
  markdown_to_html text
  = join (lit "<br>") (map html_escape (splitlines text)).
Proof.
  intros Htick Hstar Hlines. rewrite markdown_pipeline.
  unfold italic, bold, inline_code.
  assert (~ In "`"%char (html_escape text)) as Htick'
    by (apply html_escape_keeps_out; [reflexivity | exact Htick]).
  assert (~ In "*"%char (html_escape text)) as Hstar'
    by (apply html_escape_keeps_out; [reflexivity | exact Hstar]).
  change (lit "`") with ["`"%char]. change (lit "**") with ["*"; "*"]%char.
  change (lit "*") with ["*"%char].
  rewrite (re_sub_absent "`"%char) by exact Htick'.
  rewrite (re_sub_absent "*"%char ["*"%char]) by exact Hstar'.
  rewrite (re_sub_absent "*"%char []) by exact Hstar'.
  unfold render_lists. rewrite splitlines_html_escape.
  rewrite fold_list_step_other; [reflexivity | | reflexivity | reflexivity].
  apply List.Forall_forall. intros l Hl. apply in_map_iff in Hl as (l0 & <- & Hl0).
  apply (proj1 (List.Forall_forall _ _) Hlines) in Hl0 as [Hu Ho].
  split; [now apply li_ul_re_html_escape | now apply li_ol_re_html_escape].
Qed.

(** ** The three inline markers *)

Lemma re_sub_last h o c : re_sub [h; h] o c [h] = [h].
Proof.
  rewrite re_sub_step. unfold match_delim. simpl. rewrite Ascii.eqb_refl.
  now rewrite re_sub_nil.
Qed.

Lemma tagged_single_line (t x u : str) :
  Forall (fun c => is_line_boundary c = false) (t ++ x ++ u) ->
  render_lists ("<"%char :: t ++ x ++ u) = "<"%char :: t ++ x ++ u.
Proof.
  intros H. apply render_lists_single_line; try reflexivity.
  constructor; [reflexivity | exact H].
Qed.

(** X15. A text that is one marked span is rendered as the element of the
    marker around the text: backticks give [<code>], two asterisks [<b>],
    one asterisk [<i>], for every marked text made of characters the
    renderer does not react to; also where the text begins with white space,
    so that a line made of an asterisk, a blank, a text and an asterisk is
    italic text and no list item. *)
Theorem marked_span_rendered (x : str) :
  x <> [] -> Forall (fun c => plain c = true) x ->
  markdown_to_html (lit "`" ++ x ++ lit "`") = lit "<code>" ++ x ++ lit "</code>"
  /\ markdown_to_html (lit "**" ++ x ++ lit "**") = lit "<b>" ++ x ++ lit "</b>"
  /\ markdown_to_html (lit "*" ++ x ++ lit "*") = lit "<i>" ++ x ++ lit "</i>".
Proof.
  intros Hne Hx. destruct x as [|x0 x']; [congruence|]. clear Hne.
  pose proof (plain_all _ _ (fun c H => proj1 (plain_facts c H)) Hx) as Hsp.
  pose proof (plain_all _ _ (fun c H => proj1 (proj2 (proj2 (proj2 (plain_facts c H))))) Hx) as Hlb.
  pose proof (plain_all _ _ (fun c H => proj2 (proj2 (proj2 (proj2 (plain_facts c H))))) Hx) as Hdot.
  assert (~ In "`"%char (x0 :: x')) as Hbt by (apply plain_not_in; [reflexivity | exact Hx]).
  assert (~ In "*"%char (x0 :: x')) as Hst by (apply plain_not_in; [reflexivity | exact Hx]).
  assert ("*"%char <> x0) as Hx0 by (intros E; apply Hst; left; symmetry; exact E).
  inversion Hdot as [|? ? Hd0 Hd']; subst.
  assert (forall t u : str,
            Forall (fun c => special c = false) t ->
            Forall (fun c => special c = false) u ->
            html_escape (t ++ (x0 :: x') ++ u) = t ++ (x0 :: x') ++ u) as Hesc.
  { intros t u Ht Hu. apply html_escape_id.
    apply Forall_app; split; [exact Ht|]. apply Forall_app; split; assumption. }
  assert (forall t u : str,
            Forall (fun c => is_line_boundary c = false) t ->
            Forall (fun c => is_line_boundary c = false) u ->
            Forall (fun c => is_line_boundary c = false) (t ++ (x0 :: x') ++ u)) as Hline.
  { intros t u Ht Hu.
    apply Forall_app; split; [exact Ht|]. apply Forall_app; split; assumption. }
  assert (forall h (t u : str), ~ In h t -> ~ In h (x0 :: x') -> ~ In h u ->
            ~ In h (t ++ (x0 :: x') ++ u)) as Hout.
  { intros h t u Ht Hh Hu H. apply in_app_or in H as [H|H]; [now apply Ht|].
    apply in_app_or in H as [H|H]; [now apply Hh | now apply Hu]. }
  rewrite !markdown_pipeline. unfold italic, bold, inline_code.
  rewrite !Hesc by repeat constructor.
  change (lit "`") with ["`"%char]. change (lit "**") with ["*"; "*"]%char.
  change (lit "*") with ["*"%char].
  split; [|split].
  - replace (["`"%char] ++ (x0 :: x') ++ ["`"%char])
      with (["`"%char] ++ x0 :: x' ++ ["`"%char] ++ []) by reflexivity.
    rewrite (re_sub_match "`" [] _ _ x0) by assumption || (intros H; apply Hbt; right; exact H).
    rewrite (re_sub_nil "`" []), app_nil_r.
    rewrite (re_sub_absent "*" ["*"%char])
      by (apply Hout; [cbn; intuition discriminate | exact Hst | cbn; intuition discriminate]).
    rewrite (re_sub_absent "*" [])
      by (apply Hout; [cbn; intuition discriminate | exact Hst | cbn; intuition discriminate]).
    apply (tagged_single_line (lit "code>")), Hline; repeat constructor.
  - rewrite (re_sub_absent "`" [])
      by (apply Hout; [cbn; intuition discriminate | exact Hbt | cbn; intuition discriminate]).
    replace (["*"; "*"]%char ++ (x0 :: x') ++ ["*"; "*"]%char)
      with (["*"; "*"]%char ++ x0 :: x' ++ ["*"; "*"]%char ++ []) by reflexivity.
    rewrite (re_sub_match "*" ["*"%char] _ _ x0) by assumption || (intros H; apply Hst; right; exact H).
    rewrite (re_sub_nil "*" ["*"%char]), app_nil_r.
    rewrite (re_sub_absent "*" [])
      by (apply Hout; [cbn; intuition discriminate | exact Hst | cbn; intuition discriminate]).
    apply (tagged_single_line (lit "b>")), Hline; repeat constructor.
  - rewrite (re_sub_absent "`" [])
      by (apply Hout; [cbn; intuition discriminate | exact Hbt | cbn; intuition discriminate]).
    change (["*"%char] ++ (x0 :: x') ++ ["*"%char])
      with ("*"%char :: x0 :: x' ++ ["*"%char]).
    rewrite re_sub_lone by exact Hx0.
    change (x0 :: x' ++ ["*"%char]) with ((x0 :: x') ++ ["*"%char]).
    rewrite (re_sub_skip "*" ["*"%char]) by exact Hst.
    rewrite re_sub_last.
    replace ("*"%char :: (x0 :: x') ++ ["*"%char])
      with (["*"%char] ++ x0 :: x' ++ ["*"%char] ++ []) by reflexivity.
    rewrite (re_sub_match "*" [] _ _ x0) by assumption || (intros H; apply Hst; right; exact H).
    rewrite (re_sub_nil "*" []), app_nil_r.
    apply (tagged_single_line (lit "i>")), Hline; repeat constructor.
Qed.

(** ** Lists of one kind *)

Lemma Forall_join (P : ascii -> Prop) sep ls :
  Forall P sep -> Forall (Forall P) ls -> Forall P (join sep ls).
Proof.
  intros Hsep. induction 1 as [|l ls Hl Hls IH]; [constructor|].
  simpl. destruct ls as [|l' ls']; [exact Hl|].
  apply Forall_app; split; [exact Hl|]. apply Forall_app; split; assumption.
Qed.

Lemma splitlines_join lines :
  Forall (fun l => l <> [] /\ Forall (fun c => is_line_boundary c = false) l) lines ->
  splitlines (join [LF] lines) = lines.
Proof.
  induction 1 as [|l ls [Hne Hl] Hls IH]; [reflexivity|].
  simpl. destruct ls as [|l' ls'].
  - now apply splitlines_boundary_free.
  - rewrite splitlines_skip by exact Hl. cbn [app].
    rewrite splitlines_after_LF, IH, cons_lines.
    destruct l; [congruence|]. now rewrite app_nil_r.
Qed.

Lemma take_while_id p s :
  Forall (fun c => p c = true) s -> take_while p s = s.
Proof. induction 1 as [|c s Hc Hs IH]; cbn; [reflexivity|]. now rewrite Hc, IH. Qed.

Lemma Forall_drop_while (P : ascii -> Prop) p s :
  Forall P s -> Forall P (drop_while p s).
Proof.
  induction 1 as [|c s Hc Hs IH]; cbn; [constructor|].
  destruct (p c); [exact IH | constructor; assumption].
Qed.

Lemma drop_while_skip p a b :
  Forall (fun c => p c = true) a -> drop_while p (a ++ b) = drop_while p b.
Proof. induction 1 as [|c a Hc Ha IH]; cbn; [reflexivity|]. now rewrite Hc. Qed.

Lemma decimal_facts c :
  isdecimal c = true ->
  isspace c = false /\ Ascii.eqb c "-" || Ascii.eqb c "*" = false
  /\ plain c = true.
Proof. each_char c; intros H; try discriminate H; repeat split. Qed.

(** The group of a bullet line and of a numbered line. *)
Lemma li_ul_re_hyphen x :
  Forall (fun c => isdot c = true) x ->
  li_ul_re (lit "- " ++ x) = Some (lstrip x).
Proof.
  intros Hx. unfold li_ul_re, lstrip.
  change (drop_while isspace (lit "- " ++ x)) with ("-"%char :: " "%char :: x).
  change (Ascii.eqb "-" "-" || Ascii.eqb "-" "*") with true.
  change (isspace " ") with true. cbv iota.
  now rewrite take_while_id by now apply Forall_drop_while.
Qed.

Lemma li_re_number n x :
  n <> [] -> Forall (fun c => isdecimal c = true) n ->
  Forall (fun c => isdot c = true) x ->
  li_ul_re (n ++ lit ". " ++ x) = None
  /\ li_ol_re (n ++ lit ". " ++ x) = Some (lstrip x).
Proof.
  intros Hne Hn Hx. destruct n as [|d n']; [congruence|].
  inversion Hn as [|? ? Hd Hn']; subst.
  destruct (decimal_facts d Hd) as (Hs & Hm & _).
  unfold li_ul_re, li_ol_re, lstrip. cbn [app drop_while].
  rewrite Hs, Hm, Hd. split; [reflexivity|].
  rewrite drop_while_skip by exact Hn'.
  change (drop_while isdecimal (lit ". " ++ x)) with ("."%char :: " "%char :: x).
  change (Ascii.eqb "." "." && isspace " ") with true. cbv iota.
  now rewrite take_while_id by now apply Forall_drop_while.
Qed.

Section Runs.

Context {A : Type} (line item : A -> str).

Lemma bullet_run xs st :
  Forall (fun x => li_ul_re (line x) = Some (item x)) xs ->
  in_ul st = true ->
  fold_left list_step (map line xs) st
  = ListState (out_lines st ++ map (fun x => list_item (item x)) xs)
      true (in_ol st).
Proof.
  intros H. revert st. induction H as [|x xs Hx Hxs IH]; intros st Hul.
  - cbn. rewrite app_nil_r. destruct st; cbn in *; now subst.
  - cbn [map fold_left]. rewrite IH.
    + unfold list_step. rewrite Hx, Hul. cbn [out_lines in_ol].
      now rewrite <- app_assoc.
    + unfold list_step. now rewrite Hx.
Qed.

Lemma numbered_run xs st :
  Forall (fun x => li_ul_re (line x) = None
                   /\ li_ol_re (line x) = Some (item x)) xs ->
  in_ol st = true ->
  fold_left list_step (map line xs) st
  = ListState (out_lines st ++ map (fun x => list_item (item x)) xs)
      (in_ul st) true.
Proof.
  intros H. revert st. induction H as [|x xs [Hu Ho] Hxs IH]; intros st Hol.
  - cbn. rewrite app_nil_r. destruct st; cbn in *; now subst.
  - cbn [map fold_left]. rewrite IH.
    + unfold list_step. rewrite Hu, Ho, Hol. cbn [out_lines in_ul].
      now rewrite <- app_assoc.
    + unfold list_step. now rewrite Hu, Ho.
Qed.

Lemma bullet_lines_one_list x xs :
  Forall (fun x => li_ul_re (line x) = Some (item x)) (x :: xs) ->
  close_lists (fold_left list_step (map line (x :: xs)) (ListState [] false false))
  = UL_OPEN :: map (fun x => list_item (item x)) (x :: xs) ++ [lit "</ul>"].
Proof.
  intros H. inversion H as [|? ? Hx Hxs]; subst.
  cbn [map fold_left]. rewrite bullet_run by (exact Hxs || (unfold list_step; now rewrite Hx)).
  unfold list_step. rewrite Hx. reflexivity.
Qed.

Lemma numbered_lines_one_list x xs :
  Forall (fun x => li_ul_re (line x) = None
                   /\ li_ol_re (line x) = Some (item x)) (x :: xs) ->
  close_lists (fold_left list_step (map line (x :: xs)) (ListState [] false false))
  = OL_OPEN :: map (fun x => list_item (item x)) (x :: xs) ++ [lit "</ol>"].
Proof.
  intros H. inversion H as [|? ? [Hu Ho] Hxs]; subst.
  cbn [map fold_left].
  rewrite numbered_run by (exact Hxs || (unfold list_step; now rewrite Hu, Ho)).
  unfold list_step. rewrite Hu, Ho. reflexivity.
Qed.

(** A text of lines without special character, backtick and asterisk goes
    through the escaping and the inline substitutions as it is. *)
Lemma quiet_lines_pipeline xs :
  Forall (fun x => line x <> [] /\ Forall (fun c => plain c = true) (line x)) xs ->
  markdown_to_html (join [LF] (map line xs))
  = join (lit "<br>")
      (close_lists (fold_left list_step (map line xs) (ListState [] false false))).
Proof.
  intros H.
  assert (Forall (fun c => plain c = true \/ c = LF) (join [LF] (map line xs))) as Hq.
  { apply Forall_join; [repeat constructor; now right|].
    apply List.Forall_forall. intros l Hl. apply in_map_iff in Hl as (x & <- & Hx).
    apply (proj1 (List.Forall_forall _ _) H) in Hx as [_ Hx].
    eapply List.Forall_impl; [|exact Hx]. intros c Hc. now left. }
  assert (forall c, plain c = false -> c <> LF -> ~ In c (join [LF] (map line xs))) as Hout.
  { intros c Hc Hlf Hin. apply (proj1 (List.Forall_forall _ _) Hq) in Hin as [Hin| ->];
      congruence. }
  rewrite markdown_pipeline, html_escape_id.
  2:{ eapply List.Forall_impl; [|exact Hq].
      intros c [Hc| ->]; [now apply plain_facts | reflexivity]. }
  unfold italic, bold, inline_code.
  change (lit "`") with ["`"%char]. change (lit "**") with ["*"; "*"]%char.
  change (lit "*") with ["*"%char].
  rewrite (re_sub_absent "`"%char) by (apply Hout; [reflexivity | discriminate]).
  rewrite (re_sub_absent "*"%char ["*"%char]) by (apply Hout; [reflexivity | discriminate]).
  rewrite (re_sub_absent "*"%char []) by (apply Hout; [reflexivity | discriminate]).
  unfold render_lists. rewrite splitlines_join; [reflexivity|].
  apply List.Forall_forall. intros l Hl. apply in_map_iff in Hl as (x & <- & Hx).
  apply (proj1 (List.Forall_forall _ _) H) in Hx as [Hne Hx]. split; [exact Hne|].
  eapply List.Forall_impl; [|exact Hx]. intros c Hc. now apply plain_facts.
Qed.

End Runs.

(** X16. A text of hyphen lines only is rendered as one bullet list: one
    opening line, one item for each line in the order of the lines, holding
    the text of the line without the marker and the white space after it,
    and one closing line. *)
Theorem bullet_list_rendered (xs : list str) :
  xs <> [] -> Forall (Forall (fun c => plain c = true)) xs ->
  markdown_to_html (join [LF] (map (fun x => lit "- " ++ x) xs))
  = join (lit "<br>")
      (UL_OPEN :: map (fun x => list_item (lstrip x)) xs ++ [lit "</ul>"]).
Proof.
  intros Hne Hxs. rewrite quiet_lines_pipeline.
  - destruct xs as [|x xs']; [congruence|].
    rewrite (bullet_lines_one_list _ lstrip); [reflexivity|].
    eapply List.Forall_impl; [|exact Hxs]. intros y Hy.
    apply li_ul_re_hyphen. eapply List.Forall_impl; [|exact Hy].
    intros c Hc. now apply plain_facts.
  - eapply List.Forall_impl; [|exact Hxs]. intros y Hy.
    split; [discriminate|]. repeat constructor. exact Hy.
Qed.

(** X17. A text of numbered lines only is rendered as one numbered list:
    the numbers typed are dropped, whatever they are, and the items follow
    in the order of the lines. *)
Theorem numbered_list_rendered (items : list (str * str)) :
  items <> [] ->
  Forall (fun i => fst i <> [] /\ Forall (fun c => isdecimal c = true) (fst i)
                   /\ Forall (fun c => plain c = true) (snd i)) items ->
  markdown_to_html (join [LF] (map (fun i => fst i ++ lit ". " ++ snd i) items))
  = join (lit "<br>")
      (OL_OPEN :: map (fun i => list_item (lstrip (snd i))) items ++ [lit "</ol>"]).
Proof.
  intros Hne Hitems. rewrite quiet_lines_pipeline.
  - destruct items as [|i items']; [congruence|].
    rewrite (numbered_lines_one_list _ (fun i => lstrip (snd i))); [reflexivity|].
    eapply List.Forall_impl; [|exact Hitems]. intros [n x] (Hn & Hd & Hx).
    apply li_re_number; [exact Hn | exact Hd |].
    eapply List.Forall_impl; [|exact Hx]. intros c Hc. now apply plain_facts.
  - eapply List.Forall_impl; [|exact Hitems]. intros [n x] (Hn & Hd & Hx).
    cbn [fst snd] in *. split; [destruct n; [congruence | discriminate]|].
    apply Forall_app; split.
    + eapply List.Forall_impl; [|exact Hd]. intros c Hc. now apply decimal_facts.
    + repeat constructor. exact Hx.
Qed.

(** ** No line boundary is left *)

Lemma splitlines_no_boundary_le n s :
  length s <= n ->
  Forall (Forall (fun c => is_line_boundary c = false)) (splitlines s).
Proof.
  revert s. induction n as [|n IH]; intros [|c s] Hn;
    try (constructor; fail); [cbn in Hn; lia|].
  cbn [length] in Hn. cbn [splitlines]. destruct (is_line_boundary c) eqn:Eb.
  - destruct s as [|c' s']; [repeat constructor|].
    destruct (Ascii.eqb c CR && Ascii.eqb c' LF).
    + constructor; [constructor|]. apply IH. cbn in Hn. lia.
    + constructor; [constructor|]. apply IH. lia.
  - pose proof (IH s ltac:(lia)) as H.
    destruct (splitlines s) as [|l ls]; cbn [cons_line].
    + repeat constructor. exact Eb.
    + inversion H; subst. constructor; [constructor|]; assumption.
Qed.

Lemma Forall_take_while (P : ascii -> Prop) p s :
  Forall P s -> Forall P (take_while p s).
Proof.
  induction 1 as [|c s Hc Hs IH]; cbn; [constructor|].
  destruct (p c); constructor; assumption.
Qed.

Lemma Forall_tail (P : ascii -> Prop) c s : Forall P (c :: s) -> Forall P s.
Proof. now inversion 1. Qed.

Lemma li_ul_re_Forall (P : ascii -> Prop) line g :
  li_ul_re line = Some g -> Forall P line -> Forall P g.
Proof.
  unfold li_ul_re. intros H Hl.
  apply (Forall_drop_while P isspace) in Hl.
  destruct (drop_while isspace line) as [|c [|w r']]; try discriminate H.
  - destruct (Ascii.eqb c "-" || Ascii.eqb c "*"); discriminate H.
  - destruct (Ascii.eqb c "-" || Ascii.eqb c "*"); [|discriminate H].
    destruct (isspace w); [|discriminate H]. injection H as <-.
    apply Forall_take_while, Forall_drop_while.
    now apply Forall_tail, Forall_tail in Hl.
Qed.

Lemma li_ol_re_Forall (P : ascii -> Prop) line g :
  li_ol_re line = Some g -> Forall P line -> Forall P g.
Proof.
  unfold li_ol_re. intros H Hl.
  apply (Forall_drop_while P isspace) in Hl.
  destruct (drop_while isspace line) as [|c r]; [discriminate H|].
  destruct (isdecimal c); [|discriminate H].
  apply Forall_tail, (Forall_drop_while P isdecimal) in Hl.
  destruct (drop_while isdecimal r) as [|p [|w r']]; try discriminate H.
  destruct (Ascii.eqb p "." && isspace w); [|discriminate H]. injection H as <-.
  apply Forall_take_while, Forall_drop_while.
  now apply Forall_tail, Forall_tail in Hl.
Qed.

Lemma list_item_no_boundary g :
  Forall (fun c => is_line_boundary c = false) g ->
  Forall (fun c => is_line_boundary c = false) (list_item g).
Proof.
  intros H. unfold list_item.
  apply Forall_app; split; [repeat constructor|].
  apply Forall_app; split; [exact H | repeat constructor].
Qed.

Lemma list_step_no_boundary st line :
  Forall (Forall (fun c => is_line_boundary c = false)) (out_lines st) ->
  Forall (fun c => is_line_boundary c = false) line ->
  Forall (Forall (fun c => is_line_boundary c = false))
    (out_lines (list_step st line)).
Proof.
  intros Hst Hline. unfold list_step.
  destruct (li_ul_re line) as [g|] eqn:Eu;
    [|destruct (li_ol_re line) as [g|] eqn:Eo];
    destruct (in_ul st), (in_ol st); cbn [out_lines];
    repeat (apply Forall_app; split); try exact Hst;
    try (constructor; [|constructor]);
    try (apply list_item_no_boundary;
         first [ eapply li_ul_re_Forall; eassumption
               | eapply li_ol_re_Forall; eassumption ]);
    try exact Hline; repeat constructor.
Qed.

(** X20. The output holds no line boundary, for every text: each line feed,
    carriage return and other boundary at which the text is cut is gone, and
    the lines are held together by [<br>] only. *)
Theorem no_line_boundary_left (text : str) :
  Forall (fun c => is_line_boundary c = false) (markdown_to_html text).
Proof.
  rewrite markdown_pipeline. unfold render_lists.
  generalize (italic (bold (inline_code (html_escape text)))). intros s.
  apply Forall_join; [repeat constructor|].
  assert (forall lines st,
            Forall (Forall (fun c => is_line_boundary c = false)) lines ->
            Forall (Forall (fun c => is_line_boundary c = false)) (out_lines st) ->
            Forall (Forall (fun c => is_line_boundary c = false))
              (out_lines (fold_left list_step lines st))) as Hfold.
  { intros lines st H. revert st.
    induction H as [|l ls Hl Hls IH]; intros st Hst; [exact Hst|].
    cbn [fold_left]. apply IH. now apply list_step_no_boundary. }
  pose proof (Hfold (splitlines s) (ListState [] false false)
                (splitlines_no_boundary_le (length s) s (le_n _))
                (List.Forall_nil _)) as H.
  unfold close_lists.
  destruct (in_ul _), (in_ol _);
    repeat (apply Forall_app; split); try exact H; repeat constructor.
Qed.

(** ** The model worker *)

(** C5. Every run of the worker ends normally and emits exactly one signal:
    the one that carries the outcome of the invocation, a success value or
    one failure of the four kinds; no exception leaves [run]. *)
Theorem run_one_outcome (json_dumps : str -> str) (json_loads : str -> option str)
    (subprocess_run : str -> completed) (history : list str) :
  run json_dumps json_loads subprocess_run history
  = inr [delivered (classify json_dumps json_loads subprocess_run history)].
Proof.
  unfold run, run_try, classify.
  destruct (subprocess_run (cmd json_dumps history)) as [stdout|[| |message]];
    try reflexivity.
  assert (match stdout with Some (c :: r) => c :: r | _ => [] end
          = match stdout with Some o => o | None => [] end) as ->
    by (destruct stdout as [[|c r]|]; reflexivity).
  destruct (json_loads _) as [[|c decoded]|]; try reflexivity.
  destruct (strip _); reflexivity.
Qed.

(** C6. When the process returns, the text of the outcome is the trimmed
    output decoded by [json.loads] where that succeeds and the trimmed output
    itself where it raises; [run] ends normally in both cases, with a success
    when the text is not empty. *)
Theorem unescape_or_raw (json_dumps : str -> str) (json_loads : str -> option str)
    (subprocess_run : str -> completed) (history : list str)
    (stdout : option str) :
  subprocess_run (cmd json_dumps history) = Returned stdout ->
  let output := strip (match stdout with Some o => o | None => [] end) in
  exists text,
    match json_loads ([QUOTE] ++ output ++ [QUOTE]) with
    | Some decoded => text = decoded
    | None => text = output
    end
    /\ run json_dumps json_loads subprocess_run history
       = inr [match text with
              | [] => error (lit "Error: Model returned no output.")
              | _ :: _ => result_ready text
              end].
Proof.
  intros H output. unfold run, run_try. rewrite H.
  assert (match stdout with Some (c :: r) => c :: r | _ => [] end
          = match stdout with Some o => o | None => [] end) as ->
    by (destruct stdout as [[|c r]|]; reflexivity).
  fold output.
  destruct (json_loads ([QUOTE] ++ output ++ [QUOTE])) as [decoded|].
  - exists decoded. split; [reflexivity|]. destruct decoded; reflexivity.
  - exists output. split; [reflexivity|]. destruct output; reflexivity.
Qed.

(** ** The window: what each handler leaves alone *)

#[local] Arguments Nat.ltb : simpl never.
#[local] Arguments Nat.leb : simpl never.
#[local] Arguments lit : simpl never.
#[local] Arguments markdown_to_html : simpl never.
#[local] Arguments _create_message_block : simpl never.

Lemma create_message_block_colors w w' sender inner :
  bot_color w' = bot_color w -> user_color w' = user_color w ->
  _create_message_block w' sender inner = _create_message_block w sender inner.
Proof. intros Hb Hu. unfold _create_message_block. now rewrite Hb, Hu. Qed.

Lemma stop_typing_timer w :
  typing_indicator_timer (_stop_typing_indicator w)
  = match typing_msg_index w with
    | Some _ => false
    | None => typing_indicator_timer w
    end.
Proof.
  unfold _stop_typing_indicator. destruct (typing_msg_index w); [|reflexivity].
  destruct (_ <? _); reflexivity.
Qed.

Lemma stop_typing_index w : typing_msg_index (_stop_typing_indicator w) = None.
Proof.
  unfold _stop_typing_indicator. destruct (typing_msg_index w) eqn:E; [|exact E].
  destruct (_ <? _); reflexivity.
Qed.

Lemma stop_typing_frame w :
  reveal_timer (_stop_typing_indicator w) = reveal_timer w
  /\ conversation_history (_stop_typing_indicator w) = conversation_history w
  /\ warnings (_stop_typing_indicator w) = warnings w
  /\ bot_color (_stop_typing_indicator w) = bot_color w
  /\ user_color (_stop_typing_indicator w) = user_color w.
Proof.
  unfold _stop_typing_indicator. destruct (typing_msg_index w); [|tauto].
  destruct (_ <? _); cbn; tauto.
Qed.

Lemma stop_typing_stops w :
  indicator_known w -> typing_indicator_timer (_stop_typing_indicator w) = false.
Proof.
  intros H. rewrite stop_typing_timer. unfold indicator_known in H.
  destruct (typing_msg_index w); [reflexivity|].
  destruct (typing_indicator_timer w); [|reflexivity].
  exfalso. now apply H.
Qed.

Lemma advance_dots_typing w :
  typing_indicator_timer (_advance_dots w) = typing_indicator_timer w
  /\ (typing_msg_index w <> None -> typing_msg_index (_advance_dots w) <> None)
  /\ reveal_timer (_advance_dots w) = reveal_timer w
  /\ conversation_history (_advance_dots w) = conversation_history w.
Proof.
  unfold _advance_dots. destruct (typing_msg_index w) as [idx|] eqn:E.
  - destruct (_ <? _); cbn; rewrite ?E; repeat split; congruence.
  - repeat split; congruence.
Qed.

Lemma reveal_next_char_typing w w' :
  _reveal_next_char w = Some w' ->
  typing_indicator_timer w' = typing_indicator_timer w
  /\ typing_msg_index w' = typing_msg_index w
  /\ conversation_history w' = conversation_history w.
Proof.
  unfold _reveal_next_char. destruct (_ <=? _).
  - intros [= <-]. cbn. tauto.
  - cbn. destruct (reveal_msg_index w); [|discriminate].
    destruct (_ <? _); intros [= <-]; cbn; tauto.
Qed.

Lemma send_message_blank typed w : strip typed = [] -> send_message typed w = w.
Proof. intros H. unfold send_message. now rewrite H. Qed.

Lemma send_message_sent typed w c u :
  strip typed = c :: u ->
  typing_indicator_timer (send_message typed w) = true
  /\ typing_msg_index (send_message typed w) <> None
  /\ reveal_timer (send_message typed w) = reveal_timer w
  /\ conversation_history (send_message typed w)
     = conversation_history w ++ [lit "User: " ++ c :: u].
Proof.
  intros H. unfold send_message. rewrite H. cbn. repeat split. discriminate.
Qed.

Lemma display_response_effect response w w' :
  display_response response w = Some w' ->
  exists cleaned,
    sanitize response = Some cleaned
    /\ typing_indicator_timer w' = typing_indicator_timer (_stop_typing_indicator w)
    /\ typing_msg_index w' = None
    /\ reveal_timer w' = true
    /\ reveal_full_text w' = cleaned
    /\ reveal_index w' = 0
    /\ conversation_history w'
       = conversation_history w ++ [BOT_NAME ++ lit ": " ++ cleaned]
    /\ input_enabled w' = true /\ send_enabled w' = true.
Proof.
  unfold display_response. destruct (sanitize response) as [cleaned|]; [|discriminate].
  intros [= <-]. exists cleaned. cbn.
  rewrite stop_typing_index. destruct (stop_typing_frame w) as (_ & -> & _).
  repeat split.
Qed.

Lemma display_error_effect message w :
  typing_indicator_timer (display_error message w)
  = typing_indicator_timer (_stop_typing_indicator w)
  /\ typing_msg_index (display_error message w) = None
  /\ reveal_timer (display_error message w) = reveal_timer w
  /\ conversation_history (display_error message w) = conversation_history w
  /\ warnings (display_error message w) = warnings w ++ [message]
  /\ input_enabled (display_error message w) = true
  /\ send_enabled (display_error message w) = true.
Proof.
  unfold display_error. cbn. rewrite stop_typing_index.
  destruct (stop_typing_frame w) as (-> & -> & -> & _). repeat split.
Qed.

Lemma set_worker_indicator_known v w :
  indicator_known w -> indicator_known (set_worker v w).
Proof. exact (fun H => H). Qed.

(** Every handler keeps [indicator_known]. *)
Lemma handle_indicator_known e w w' :
  indicator_known w -> handle e w = Some w' -> indicator_known w'.
Proof.
  intros Hw. destruct e as [typed|response|message| |]; cbn.
  - destruct (_ && _); [|discriminate]. intros [= <-].
    destruct (strip typed) as [|c u] eqn:E.
    + now rewrite send_message_blank.
    + destruct (send_message_sent typed w c u E) as (_ & H & _). now intros _.
  - destruct (worker w); [|discriminate]. intros H.
    apply display_response_effect in H as (cleaned & _ & Ht & _).
    intros Hw'. rewrite Ht, (stop_typing_stops (set_worker None w)) in Hw'
      by now apply set_worker_indicator_known.
    discriminate.
  - destruct (worker w); [|discriminate]. intros [= <-].
    destruct (display_error_effect message (set_worker None w)) as (Ht & _).
    intros Hw'. rewrite Ht, (stop_typing_stops (set_worker None w)) in Hw'
      by now apply set_worker_indicator_known.
    discriminate.
  - destruct (typing_indicator_timer w) eqn:E; [|discriminate]. intros [= <-].
    destruct (advance_dots_typing w) as (_ & H & _). intros _. apply H, Hw, E.
  - destruct (reveal_timer w); [|discriminate]. intros H.
    apply reveal_next_char_typing in H as (Ht & Hi & _).
    unfold indicator_known. rewrite Ht, Hi. exact Hw.
Qed.

Lemma initial_indicator_known dark_mode welcome_text :
  indicator_known (initial dark_mode welcome_text).
Proof. intros H. discriminate H. Qed.

Lemma handle_all_indicator_known es w w' :
  indicator_known w -> handle_all es w = Some w' -> indicator_known w'.
Proof.
  revert w. induction es as [|e es IH]; intros w Hw; cbn.
  - now intros [= <-].
  - destruct (handle e w) as [w1|] eqn:E; [|discriminate].
    apply IH. eapply handle_indicator_known; eauto.
Qed.

(** ** Failures *)

Lemma run_time_out json_dumps json_loads subprocess_run history message :
  subprocess_run (cmd json_dumps history) = Raised TimeoutExpired ->
  run json_dumps json_loads subprocess_run history = inr [error message] ->
  message = lit "Error: Model timed out.".
Proof. unfold run, run_try. intros ->. now intros [= <-]. Qed.

(** C7. In every state the window can reach, a failure of the invocation in
    flight leaves the conversation as it was, shows the message of the
    failure, stops the typing indicator and enables the input field and the
    send button again; the message of a time-out holds the words timed out. *)
Theorem failure_handling (json_dumps : str -> str) (json_loads : str -> option str)
    (es : list event) (dark_mode : bool) (welcome_text : str)
    (w : ChatWindow) (subprocess_run : str -> completed) (message : str) :
  handle_all es (initial dark_mode welcome_text) = Some w ->
  worker w <> None ->
  run json_dumps json_loads subprocess_run (conversation_history w)
  = inr [error message] ->
  exists w',
    handle (ErrorSignal message) w = Some w'
    /\ conversation_history w' = conversation_history w
    /\ warnings w' = warnings w ++ [message]
    /\ typing_indicator_timer w' = false
    /\ typing_msg_index w' = None
    /\ input_enabled w' = true
    /\ send_enabled w' = true
    /\ match subprocess_run (cmd json_dumps (conversation_history w)) with
       | Raised TimeoutExpired => contains (lit "timed out") message = true
       | _ => True
       end.
Proof.
  intros Hreach Hworker Hrun.
  exists (display_error message (set_worker None w)).
  assert (indicator_known (set_worker None w)) as Hknown.
  { apply set_worker_indicator_known.
    eapply handle_all_indicator_known; [|exact Hreach].
    apply initial_indicator_known. }
  destruct (display_error_effect message (set_worker None w))
    as (Ht & Hi & _ & Hh & Hw & Hin & Hsend).
  rewrite (stop_typing_stops _ Hknown) in Ht.
  split; [cbn; destruct (worker w); [reflexivity | congruence]|].
  repeat (split; [assumption|]).
  destruct (subprocess_run (cmd json_dumps (conversation_history w)))
    as [stdout|[| |m]] eqn:E; try exact I.
  rewrite (run_time_out _ _ _ _ _ E Hrun). reflexivity.
Qed.

(** ** One tick source *)

Lemma handle_one_tick_source e w w' :
  indicator_known w -> one_tick_source w -> waits_for_reveal e w = true ->
  handle e w = Some w' -> one_tick_source w'.
Proof.
  unfold one_tick_source. intros Hknown Hone Hwait.
  destruct e as [typed|response|message| |]; cbn in *.
  - destruct (input_enabled w && send_enabled w); [|discriminate]. intros [= <-].
    destruct (strip typed) as [|c u] eqn:E.
    + now rewrite send_message_blank.
    + destruct (send_message_sent typed w c u E) as (_ & _ & -> & _).
      apply negb_true_iff in Hwait. rewrite Hwait. apply andb_false_r.
  - destruct (worker w); [|discriminate]. intros H.
    apply display_response_effect in H as (cleaned & _ & -> & _).
    now rewrite (stop_typing_stops (set_worker None w)).
  - destruct (worker w); [|discriminate]. intros [= <-].
    destruct (display_error_effect message (set_worker None w)) as (-> & _).
    now rewrite (stop_typing_stops (set_worker None w)).
  - destruct (typing_indicator_timer w) eqn:E; [|discriminate]. intros [= <-].
    destruct (advance_dots_typing w) as (-> & _ & -> & _).
    rewrite E. exact Hone.
  - destruct (reveal_timer w) eqn:E; [|discriminate]. intros H.
    apply reveal_next_char_typing in H as (-> & _).
    rewrite andb_true_r in Hone. now rewrite Hone.
Qed.

Lemma orderly_keeps_one_tick_source es w w' :
  indicator_known w -> one_tick_source w -> orderly es w = true ->
  handle_all es w = Some w' -> one_tick_source w'.
Proof.
  revert w. induction es as [|e es IH]; intros w Hknown Hone; cbn.
  - now intros _ [= <-].
  - intros Ho. apply andb_true_iff in Ho as [Hwait Ho].
    destruct (handle e w) as [w1|] eqn:E; [|discriminate].
    apply IH; [| |exact Ho].
    + eapply handle_indicator_known; eauto.
    + eapply handle_one_tick_source; eauto.
Qed.

(** C4, amended. In every state reached by a sequence of submissions,
    completions of the invocation and ticks in which no submission is made
    while a reveal is running, at most one of the two timers runs. *)
Theorem orderly_one_tick_source (es : list event) (dark_mode : bool)
    (welcome_text : str) (w : ChatWindow) :
  orderly es (initial dark_mode welcome_text) = true ->
  handle_all es (initial dark_mode welcome_text) = Some w ->
  one_tick_source w.
Proof.
  apply orderly_keeps_one_tick_source.
  - apply initial_indicator_known.
  - reflexivity.
Qed.

(** ** The transcript *)




(** ** The reveal *)

Lemma start_reveal_revealing text w : revealing w text 0 (_start_reveal text w).
Proof.
  unfold revealing, _start_reveal. cbn.
  rewrite length_app, Nat.add_sub. repeat split.
Qed.

Lemma tick_revealing w text k wk :
  revealing w text k wk -> k < length text ->
  exists wk', _reveal_next_char wk = Some wk' /\ revealing w text (S k) wk'.
Proof.
  intros (Ht & Hf & Hi & Hm & Hms & Hb & Hu & _) Hk.
  unfold _reveal_next_char. rewrite Hf, Hi.
  destruct (Nat.leb_spec (length text) k) as [Hle|_]; [lia|].
  cbn. rewrite ?Hm, ?Hms, ?Hf, ?Hi, ?length_app. cbn.
  destruct (Nat.ltb_spec (length (messages w)) (length (messages w) + 1)) as [_|Hge];
    [|lia].
  eexists. split; [reflexivity|].
  unfold revealing. cbn. rewrite ?Hm, ?Hf, ?Hb, ?Hu.
  do 4 (split; [first [assumption | reflexivity | apply Nat.add_1_r]|]).
  split; [|repeat split; first [assumption | reflexivity]].
  unfold set_html. rewrite alter_app_r_alt, Nat.sub_diag by lia.
  cbn. rewrite Nat.add_1_r. do 3 f_equal.
  apply create_message_block_colors; cbn; assumption.
Qed.

Lemma last_tick_idle w text wk :
  revealing w text (length text) wk ->
  exists w', _reveal_next_char wk = Some w' /\ reveal_idle w'.
Proof.
  intros (Ht & Hf & Hi & _). unfold _reveal_next_char. rewrite Hf, Hi.
  rewrite Nat.leb_refl. eexists. split; [reflexivity|].
  unfold reveal_idle. cbn. repeat split.
Qed.

Lemma ticks_revealing w text j k wk :
  revealing w text k wk -> k + j <= length text ->
  exists wk',
    handle_all (repeat RevealTick j) wk = Some wk' /\ revealing w text (k + j) wk'.
Proof.
  revert k wk. induction j as [|j IH]; intros k wk Hrev Hk.
  - exists wk. rewrite Nat.add_0_r. split; [reflexivity | exact Hrev].
  - destruct (tick_revealing w text k wk Hrev) as (w1 & Htick & Hrev1); [lia|].
    destruct (IH (S k) w1 Hrev1) as (wk' & Hall & Hrev'); [lia|].
    exists wk'. split.
    + cbn. destruct Hrev as (-> & _). now rewrite Htick.
    + now rewrite Nat.add_succ_r.
Qed.

Lemma handle_all_app es1 es2 w :
  handle_all (es1 ++ es2) w
  = match handle_all es1 w with
    | Some w1 => handle_all es2 w1
    | None => None
    end.
Proof.
  revert w. induction es1 as [|e es1 IH]; intros w; [reflexivity|].
  cbn. destruct (handle e w); [apply IH | reflexivity].
Qed.

(** C3, amended. After [k] ticks, for every [k] up to the length of the
    text, the reveal is still running and the entry appended for it shows the
    rendering of the first [k] characters; the tick after the last character,
    the one that finds nothing left, stops the timer and clears the state of
    the reveal. *)
Theorem reveal_ticks (text : str) (w : ChatWindow) (k : nat) :
  k <= length text ->
  (exists wk,
     handle_all (repeat RevealTick k) (_start_reveal text w) = Some wk
     /\ revealing w text k wk)
  /\ (exists w',
        handle_all (repeat RevealTick (S (length text))) (_start_reveal text w)
        = Some w'
        /\ reveal_idle w').
Proof.
  intros Hk. split.
  - apply (ticks_revealing w text k 0); [apply start_reveal_revealing | lia].
  - destruct (ticks_revealing w text (length text) 0 (_start_reveal text w))
      as (wL & Hall & Hrev); [apply start_reveal_revealing | lia |].
    destruct (last_tick_idle w text wL Hrev) as (w' & Htick & Hidle).
    exists w'. split; [|exact Hidle].
    replace (S (length text)) with (length text + 1) by lia.
    rewrite repeat_app, handle_all_app, Hall. cbn.
    destruct Hrev as (-> & _). now rewrite Htick.
Qed.

(** ** The label in front of a response *)

Lemma take_while_all p s : Forall (fun c => p c = true) (take_while p s).
Proof.
  induction s as [|c s IH]; cbn; [constructor|].
  destruct (p c) eqn:E; constructor; assumption.
Qed.

Lemma drop_while_app_all p a b :
  Forall (fun c => p c = true) a -> drop_while p (a ++ b) = drop_while p b.
Proof. induction 1 as [|c a Hc Ha IH]; cbn; [reflexivity|]. now rewrite Hc. Qed.

Lemma rstrip_app_space x ws :
  Forall (fun c => isspace c = true) ws -> rstrip (x ++ ws) = rstrip x.
Proof.
  intros H. unfold rstrip. rewrite rev_app_distr, drop_while_app_all; [reflexivity|].
  now apply List.Forall_rev.
Qed.

Lemma strip_decompose text :
  exists ws1 ws2,
    text = ws1 ++ strip text ++ ws2
    /\ Forall (fun c => isspace c = true) ws1
    /\ Forall (fun c => isspace c = true) ws2.
Proof.
  exists (take_while isspace (rstrip text)), (rev (take_while isspace (rev text))).
  split; [|split].
  - unfold strip, lstrip. rewrite app_assoc, take_drop_while.
    unfold rstrip. rewrite <- rev_app_distr, take_drop_while. symmetry. apply rev_involutive.
  - apply take_while_all.
  - apply List.Forall_rev, take_while_all.
Qed.

Lemma split_once_found sep pre rest :
  ~ In sep pre -> split_once sep (pre ++ sep :: rest) = [pre; rest].
Proof.
  induction pre as [|c pre IH]; intros Hin; cbn.
  - now rewrite Ascii.eqb_refl.
  - destruct (Ascii.eqb_spec c sep) as [->|_]; [exfalso; apply Hin; now left|].
    rewrite IH; [reflexivity|]. intros H. apply Hin. now right.
Qed.

Lemma lower_char_colon c : lower_char c = ":"%char -> c = ":"%char.
Proof. each_char c; intros H; try discriminate H; reflexivity. Qed.

Lemma isspace_not_colon c : isspace c = true -> c <> ":"%char.
Proof. each_char c; intros H; try discriminate H; discriminate. Qed.

Lemma bot_name_no_colon name : In name BOT_NAMES -> ~ In ":"%char name.
Proof.
  clear BOT_NAME. intros H. unfold BOT_NAMES in H. cbn in H.
  repeat (destruct H as [<-|H]; [vm_compute; intuition discriminate|]).
  destruct H.
Qed.

Lemma lower_no_colon (pre name : str) :
  lower pre = lower name -> ~ In ":"%char name -> ~ In ":"%char pre.
Proof.
  intros E Hname Hpre. apply Hname.
  apply (in_map lower_char) in Hpre. unfold lower in E. rewrite E in Hpre.
  apply in_map_iff in Hpre as (b & Hb & Hin).
  change (lower_char ":") with ":"%char in Hb.
  apply lower_char_colon in Hb. now subst b.
Qed.

(** What the test of [sanitize] says of the trimmed text. *)
Lemma labelled_shape t name :
  startswith (lower t) (lower name ++ lit ":") = true ->
  exists pre rest,
    t = pre ++ ":"%char :: rest /\ lower pre = lower name.
Proof.
  unfold startswith. destruct (starts_with _ _) as [r|] eqn:E; [|discriminate].
  intros _. apply starts_with_app in E. rewrite <- app_assoc in E.
  unfold lower in E. apply map_eq_app in E as (pre & tl & -> & Hpre & Htl).
  cbn in Htl. apply map_eq_cons in Htl as (c & rest & -> & Hc & _).
  apply lower_char_colon in Hc. subst c.
  exists pre, rest. split; [reflexivity | exact Hpre].
Qed.

Lemma sanitize_labelled response :
  In BOT_NAME BOT_NAMES ->
  startswith (lower (strip response)) (lower BOT_NAME ++ lit ":") = true ->
  sanitize response
  = Some (strip (skipn (S (length BOT_NAME)) (strip response))).
Proof.
  intros Hname Htest. unfold sanitize. rewrite Htest.
  destruct (labelled_shape _ _ Htest) as (pre & rest & Ht & Hpre).
  destruct (strip_decompose response) as (ws1 & ws2 & Hr & Hws1 & Hws2).
  assert (length pre = length BOT_NAME) as Hlen.
  { apply (f_equal (@length ascii)) in Hpre. unfold lower in Hpre.
    now rewrite !length_map in Hpre. }
  assert (~ In ":"%char (ws1 ++ pre)) as Hno.
  { intros H. apply in_app_or in H as [H|H].
    - apply (proj1 (List.Forall_forall _ _) Hws1) in H.
      now apply isspace_not_colon in H.
    - revert H. eapply lower_no_colon; [exact Hpre|].
      now apply bot_name_no_colon. }
  rewrite Ht. rewrite Hr at 1. rewrite Ht.
  replace (ws1 ++ (pre ++ ":"%char :: rest) ++ ws2)
    with ((ws1 ++ pre) ++ ":"%char :: (rest ++ ws2))
    by (rewrite <- !app_assoc; reflexivity).
  rewrite split_once_found by exact Hno. cbn [lookup list_lookup].
  f_equal. unfold strip. rewrite rstrip_app_space by exact Hws2.
  rewrite <- Hlen.
  replace (pre ++ ":"%char :: rest) with ((pre ++ [":"%char]) ++ rest)
    by (rewrite <- app_assoc; reflexivity).
  replace (S (length pre)) with (length (pre ++ [":"%char]))
    by (rewrite length_app; cbn; lia).
  now rewrite skipn_app, skipn_all, Nat.sub_diag.
Qed.

Lemma rstrip_ends_nonspace x c :
  isspace c = false -> rstrip (x ++ [c]) = x ++ [c].
Proof.
  intros H. unfold rstrip. rewrite rev_app_distr.
  cbn [rev app drop_while]. rewrite H. cbn [rev].
  now rewrite rev_involutive.
Qed.

Lemma bot_name_head name :
  In name BOT_NAMES -> exists c r, name = c :: r /\ isspace c = false.
Proof.
  clear BOT_NAME. intros H. unfold BOT_NAMES in H. cbn in H.
  repeat (destruct H as [<-|H]; [eexists _, _; split; reflexivity|]).
  destruct H.
Qed.

(** The model echoes the label: what follows the label and the colon is
    kept, trimmed. *)
Lemma sanitize_echo b c :
  In BOT_NAME BOT_NAMES -> isspace c = false ->
  sanitize (BOT_NAME ++ lit ":" ++ b ++ [c]) = Some (strip (b ++ [c])).
Proof.
  intros Hname Hc.
  destruct (bot_name_head _ Hname) as (h & r & Hb & Hh).
  assert (strip (BOT_NAME ++ lit ":" ++ b ++ [c]) = BOT_NAME ++ lit ":" ++ b ++ [c])
    as Hstrip.
  { unfold strip.
    replace (BOT_NAME ++ lit ":" ++ b ++ [c]) with ((BOT_NAME ++ lit ":" ++ b) ++ [c])
      by (rewrite <- !app_assoc; reflexivity).
    rewrite rstrip_ends_nonspace by exact Hc.
    rewrite Hb. unfold lstrip. cbn [app drop_while]. now rewrite Hh. }
  rewrite sanitize_labelled; [|exact Hname|].
  - rewrite Hstrip. do 2 f_equal.
    replace (BOT_NAME ++ lit ":" ++ b ++ [c]) with ((BOT_NAME ++ lit ":") ++ b ++ [c])
      by (rewrite <- !app_assoc; reflexivity).
    replace (S (length BOT_NAME)) with (length (BOT_NAME ++ lit ":"))
      by (rewrite length_app; change (length (lit ":")) with 1; lia).
    now rewrite skipn_app, skipn_all, Nat.sub_diag.
  - rewrite Hstrip. unfold startswith, lower.
    rewrite app_assoc, map_app, map_app.
    change (map lower_char (lit ":")) with (lit ":").
    now rewrite starts_with_self.
Qed.

(** C8. A response that begins, after trimming and without regard to case,
    with the label of the bot and a colon is stored and revealed without that
    prefix, trimmed; any other response is stored and revealed as it is. The
    prefix is removed once: of a label written twice the second stays. *)
Theorem label_prefix_stripped (response : str) (w : ChatWindow) :
  In BOT_NAME BOT_NAMES ->
  let cleaned :=
    if startswith (lower (strip response)) (lower BOT_NAME ++ lit ":")
    then strip (skipn (S (length BOT_NAME)) (strip response))
    else response in
  (exists w',
     display_response response w = Some w'
     /\ conversation_history w'
        = conversation_history w ++ [BOT_NAME ++ lit ": " ++ cleaned]
     /\ reveal_full_text w' = cleaned)
  /\ sanitize (BOT_NAME ++ lit ": actual reply") = Some (lit "actual reply")
  /\ sanitize (BOT_NAME ++ lit ": " ++ BOT_NAME ++ lit ": actual reply")
     = Some (BOT_NAME ++ lit ": actual reply").
Proof.
  intros Hname cleaned.
  assert (sanitize response = Some cleaned) as Hs.
  { unfold cleaned.
    destruct (startswith (lower (strip response)) (lower BOT_NAME ++ lit ":")) eqn:E.
    - now apply sanitize_labelled.
    - unfold sanitize. now rewrite E. }
  split; [|split].
  - destruct (display_response response w) as [w'|] eqn:E.
    + exists w'. split; [reflexivity|].
      apply display_response_effect in E
        as (c & Hc & _ & _ & _ & Hf & _ & Hh & _).
      rewrite Hs in Hc. injection Hc as <-. split; assumption.
    + unfold display_response in E. rewrite Hs in E. discriminate E.
  - change (lit ": actual reply") with (lit ":" ++ lit " actual repl" ++ ["y"%char]).
    now rewrite sanitize_echo.
  - change (lit ": " ++ BOT_NAME ++ lit ": actual reply")
      with (lit ":" ++ " "%char :: BOT_NAME ++ lit ": actual repl" ++ ["y"%char]).
    replace (" "%char :: BOT_NAME ++ lit ": actual repl" ++ ["y"%char])
      with ((" "%char :: BOT_NAME ++ lit ": actual repl") ++ ["y"%char])
      by (cbn; rewrite <- app_assoc; reflexivity).
    rewrite sanitize_echo by (exact Hname || reflexivity).
    f_equal. unfold strip. rewrite rstrip_ends_nonspace by reflexivity.
    destruct (bot_name_head _ Hname) as (h & r & Hb & Hh).
    rewrite Hb. unfold lstrip. cbn [app drop_while].
    change (isspace " ") with true. cbn iota. rewrite Hh.
    rewrite <- app_assoc. reflexivity.
Qed.

(** * More on the window *)

Lemma length_set_html i block ms : length (set_html i block ms) = length ms.
Proof. unfold set_html. apply length_alter. Qed.

Lemma length_snoc {A} (l : list A) x : length (l ++ [x]) = S (length l).
Proof. rewrite length_app. cbn. lia. Qed.

Lemma length_delete_last {A} (l : list A) j :
  S j = length l -> length (delete j l) = j.
Proof.
  intros H. rewrite length_delete; [lia|].
  apply lookup_lt_is_Some. lia.
Qed.

Lemma initial_coherent dark_mode welcome_text :
  coherent (initial dark_mode welcome_text).
Proof.
  constructor; cbn; try tauto; try reflexivity; try discriminate; try lia.
Qed.

Ltac open_window w H :=
  destruct H as [Hworker Hsend Htimer Hindex Hlast Hrange Hreveal Hentry Hdisplay
                 Hdots];
  destruct w as [bc uc ms cd tt td ti rt rf ri rmi ch ie se wa wk];
  cbn in Hworker, Hsend, Htimer, Hindex, Hlast, Hrange, Hreveal, Hentry,
    Hdisplay, Hdots.

Ltac coherent_field :=
  try first
    [ reflexivity | assumption | tauto | discriminate | lia
    | split; intros ?; discriminate
    | intros ? [= <-]; first [lia | split; [lia | intros ? [=]; lia]] ].

Lemma send_message_coherent typed w :
  coherent w -> input_enabled w = true -> coherent (send_message typed w).
Proof.
  intros H Hin. unfold send_message.
  destruct (strip typed) as [|c u]; [exact H|].
  open_window w H. cbn in Hin. subst ie.
  unfold rendered, _create_message_block in *.
  constructor; cbn; rewrite ?length_snoc; coherent_field.
  - intros i Hi. destruct (Hrange i Hi) as [Hlt _].
    split; [lia|]. intros j [= <-]. lia.
  - intros i Hi. destruct (Hrange i Hi) as [Hlt _].
    rewrite !lookup_app_l by (rewrite ?length_snoc; lia). now apply Hentry.
Qed.

Lemma last_in_range j n : S j = n -> (j <? n) = true.
Proof. intros <-. apply Nat.ltb_lt. lia. Qed.

Lemma display_response_coherent text w w' :
  coherent w -> worker w <> None ->
  display_response text (set_worker None w) = Some w' -> coherent w'.
Proof.
  intros H Hw. unfold display_response.
  destruct (sanitize text) as [cleaned|]; [|discriminate]. intros [= <-].
  open_window w H. cbn in Hw.
  assert (ie = false) as -> by (destruct ie; [|reflexivity]; exfalso; tauto).
  destruct ti as [j|]; [|exfalso; destruct Hindex as [Hi _]; discriminate (Hi eq_refl)].
  pose proof (Hlast j eq_refl) as Hj.
  unfold _stop_typing_indicator, _start_reveal, rendered in *. cbn.
  rewrite (last_in_range _ _ Hj). cbn.
  constructor; cbn; rewrite ?length_snoc;
    try rewrite (length_delete_last _ _ Hj); coherent_field.
  intros i [= <-]. rewrite Nat.sub_0_r.
  rewrite list_lookup_middle by (now rewrite length_delete_last).
  unfold _create_message_block. cbn.
  change (markdown_to_html []) with (@nil ascii). reflexivity.
Qed.

Lemma display_error_coherent message w :
  coherent w -> worker w <> None ->
  coherent (display_error message (set_worker None w)).
Proof.
  intros H Hw. open_window w H. cbn in Hw.
  assert (ie = false) as -> by (destruct ie; [|reflexivity]; exfalso; tauto).
  destruct ti as [j|]; [|exfalso; destruct Hindex as [Hi _]; discriminate (Hi eq_refl)].
  pose proof (Hlast j eq_refl) as Hj.
  unfold display_error, _stop_typing_indicator, rendered,
    _create_message_block in *. cbn.
  rewrite (last_in_range _ _ Hj). cbn.
  constructor; cbn; try rewrite (length_delete_last _ _ Hj); coherent_field.
  - intros i Hi. destruct (Hrange i Hi) as [_ Hlt].
    split; [now apply Hlt | discriminate].
  - intros i Hi. destruct (Hrange i Hi) as [_ Hlt].
    rewrite list_lookup_delete_lt by now apply Hlt. now apply Hentry.
Qed.

Lemma advance_dots_coherent w :
  coherent w -> coherent (_advance_dots w).
Proof.
  intros H. unfold _advance_dots.
  destruct (typing_msg_index w) as [j|] eqn:E; [|exact H].
  open_window w H. cbn in E. subst ti.
  pose proof (Hlast j eq_refl) as Hj.
  unfold rendered in *. cbn. rewrite (last_in_range _ _ Hj). cbn.
  unfold _create_message_block in *. cbn in *.
  constructor; cbn; rewrite ?length_set_html; coherent_field.
  intros i Hi. destruct (Hrange i Hi) as [_ Hlt].
  unfold set_html. rewrite list_lookup_alter_ne by (specialize (Hlt j eq_refl); lia).
  now apply Hentry.
Qed.

Lemma reveal_next_char_coherent w w' :
  coherent w -> _reveal_next_char w = Some w' -> coherent w'.
Proof.
  intros H. unfold _reveal_next_char.
  destruct (length (reveal_full_text w) <=? reveal_index w).
  - intros [= <-]. open_window w H. unfold rendered in *.
    constructor; cbn; coherent_field.
  - open_window w H. cbn.
    destruct rmi as [i|]; [|discriminate].
    destruct (Hrange i eq_refl) as [Hi Hij].
    apply Nat.ltb_lt in Hi as Hb. rewrite Hb. intros [= <-].
    unfold rendered, _create_message_block in *. cbn in *.
    constructor; cbn; rewrite ?length_set_html; coherent_field.
    intros i' [= <-]. unfold set_html.
    rewrite list_lookup_alter_eq, (Hentry i eq_refl). reflexivity.
Qed.

Lemma handle_coherent e w w' :
  coherent w -> handle e w = Some w' -> coherent w'.
Proof.
  intros H. destruct e as [typed|text|message| |]; cbn.
  - destruct (input_enabled w) eqn:E; [|discriminate].
    destruct (send_enabled w); [|discriminate]. intros [= <-].
    now apply send_message_coherent.
  - destruct (worker w) eqn:E; [|discriminate].
    apply display_response_coherent; [exact H | congruence].
  - destruct (worker w) eqn:E; [|discriminate]. intros [= <-].
    apply display_error_coherent; [exact H | congruence].
  - destruct (typing_indicator_timer w); [|discriminate]. intros [= <-].
    now apply advance_dots_coherent.
  - destruct (reveal_timer w) eqn:E; [|discriminate].
    now apply reveal_next_char_coherent.
Qed.

Lemma handle_all_coherent es w w' :
  coherent w -> handle_all es w = Some w' -> coherent w'.
Proof.
  revert w. induction es as [|e es IH]; intros w H; cbn.
  - now intros [= <-].
  - destruct (handle e w) as [w1|] eqn:E; [|discriminate].
    apply IH. eapply handle_coherent; eauto.
Qed.

Lemma reachable_coherent w : reachable w -> coherent w.
Proof.
  intros (es & dark_mode & welcome_text & H).
  eapply handle_all_coherent; [apply initial_coherent | exact H].
Qed.

(** ** No handler raises *)

Lemma split_once_second sep s :
  In sep s -> exists a b, split_once sep s = [a; b].
Proof.
  induction s as [|c s IH]; intros H; [destruct H|]. cbn.
  destruct (Ascii.eqb_spec c sep) as [->|Hne]; [eauto|].
  destruct H as [H|H]; [contradiction|].
  destruct (IH H) as (a & b & ->). eauto.
Qed.

(** Indexing the result of [split] in [display_response] never fails. *)
Lemma sanitize_total response : exists cleaned, sanitize response = Some cleaned.
Proof.
  unfold sanitize.
  destruct (startswith (lower (strip response)) (lower BOT_NAME ++ lit ":")) eqn:E;
    [|eauto].
  destruct (labelled_shape _ _ E) as (pre & rest & Ht & _).
  destruct (strip_decompose response) as (ws1 & ws2 & Hr & _).
  destruct (split_once_second ":"%char response) as (a & b & ->); [|cbn; eauto].
  rewrite Hr, Ht. apply in_or_app. right. apply in_or_app. left.
  apply in_or_app. right. now left.
Qed.

(** X1. In a window the program can reach, the handler of every event that
    can occur returns: no slot raises, neither the [IndexError] of
    [display_response] nor the [TypeError] of [_reveal_next_char]. *)
Theorem enabled_event_handled (e : event) (w : ChatWindow) :
  reachable w -> enabled e w = true ->
  exists w', handle e w = Some w' /\ reachable w'.
Proof.
  intros Hr He.
  assert (exists w', handle e w = Some w') as (w' & H).
  { pose proof (reachable_coherent w Hr) as Hc.
    destruct e as [typed|text|message| |]; cbn in *.
    - rewrite He. eauto.
    - destruct (worker w); [|discriminate]. unfold display_response.
      destruct (sanitize_total text) as (cleaned & ->). eauto.
    - destruct (worker w); [|discriminate]. eauto.
    - rewrite He. eauto.
    - rewrite He. unfold _reveal_next_char.
      destruct (_ <=? _); [eauto|]. cbn.
      destruct (reveal_msg_index w) eqn:E;
        [|exfalso; now apply (coh_reveal_timer w Hc)].
      eauto. }
  exists w'. split; [exact H|].
  destruct Hr as (es & dark_mode & welcome_text & Hes).
  exists (es ++ [e]), dark_mode, welcome_text.
  rewrite handle_all_app, Hes. cbn. now rewrite H.
Qed.

(** ** One invocation in flight *)


(** ** The display *)

(** X3. In a window the program can reach, the display shows the entries of
    [messages], in order, inside the outer block: no handler changes an
    entry without rendering. *)
Theorem display_up_to_date (w : ChatWindow) :
  reachable w ->
  chat_display w
  = lit "<div style='font-size:16px; line-height:1.4;'>"
      ++ concat (map html (messages w)) ++ lit "</div>".
Proof. intros Hr. exact (coh_display w (reachable_coherent w Hr)). Qed.

(** ** Ticks *)



(** ** Settled entries *)

Lemma handle_settled i e w w' :
  coherent w -> settled i w -> handle e w = Some w' ->
  settled i w' /\ messages w' !! i = messages w !! i.
Proof.
  intros Hc (Hi & Hr & Ht). unfold settled.
  destruct e as [typed|text|message| |]; cbn.
  - destruct (_ && _); [|discriminate]. intros [= <-]. unfold send_message.
    destruct (strip typed) as [|c u]; [tauto|]. cbn.
    rewrite !length_snoc, !lookup_app_l by (rewrite ?length_snoc; lia).
    repeat split; try assumption; try lia. intros j [= <-]. lia.
  - destruct (worker w) eqn:Ew; [|discriminate]. unfold display_response.
    destruct (sanitize text) as [cleaned|]; [|discriminate]. intros [= <-].
    assert (exists j, typing_msg_index w = Some j) as (j & Ej).
    { destruct (typing_msg_index w) eqn:E; [eauto|].
      apply (coh_typing_index w Hc), (coh_worker w Hc) in E. congruence. }
    pose proof (coh_typing_last w Hc j Ej) as Hj. specialize (Ht j Ej).
    unfold _stop_typing_indicator, _start_reveal. cbn. rewrite Ej. cbn.
    rewrite (last_in_range _ _ Hj). cbn.
    rewrite length_snoc, (length_delete_last _ _ Hj).
    rewrite lookup_app_l by (rewrite (length_delete_last _ _ Hj); lia).
    rewrite list_lookup_delete_lt by lia.
    repeat split; try lia; try discriminate. intros r [= <-]. lia.
  - destruct (worker w) eqn:Ew; [|discriminate]. intros [= <-].
    assert (exists j, typing_msg_index w = Some j) as (j & Ej).
    { destruct (typing_msg_index w) eqn:E; [eauto|].
      apply (coh_typing_index w Hc), (coh_worker w Hc) in E. congruence. }
    pose proof (coh_typing_last w Hc j Ej) as Hj. specialize (Ht j Ej).
    unfold display_error, _stop_typing_indicator. cbn. rewrite Ej. cbn.
    rewrite (last_in_range _ _ Hj). cbn.
    rewrite (length_delete_last _ _ Hj), list_lookup_delete_lt by lia.
    repeat split; try lia; try discriminate. exact Hr.
  - destruct (typing_indicator_timer w); [|discriminate]. intros [= <-].
    unfold _advance_dots. destruct (typing_msg_index w) as [j|] eqn:Ej;
      [|repeat split;
        first [assumption | reflexivity | discriminate | intros; congruence]].
    pose proof (coh_typing_last w Hc j Ej) as Hj. specialize (Ht j eq_refl).
    cbn. rewrite (last_in_range _ _ Hj). cbn. rewrite Ej, length_set_html.
    unfold set_html. rewrite list_lookup_alter_ne by lia.
    repeat split; try assumption. intros j' [= <-]. exact Ht.
  - destruct (reveal_timer w); [|discriminate]. unfold _reveal_next_char.
    destruct (_ <=? _).
    + intros [= <-]. cbn. repeat split; try assumption. discriminate.
    + cbn. destruct (reveal_msg_index w) as [r|] eqn:Er; [|discriminate].
      destruct (coh_reveal_range w Hc r Er) as [Hlt _].
      apply Nat.ltb_lt in Hlt. rewrite Hlt. intros [= <-]. cbn.
      specialize (Hr r eq_refl). rewrite Er, length_set_html.
      unfold set_html. rewrite list_lookup_alter_ne by lia.
      repeat split; try assumption. intros r' [= <-]. exact Hr.
Qed.

Lemma handle_all_settled i es w w' :
  coherent w -> settled i w -> handle_all es w = Some w' ->
  settled i w' /\ messages w' !! i = messages w !! i.
Proof.
  revert w. induction es as [|e es IH]; intros w Hc Hs; cbn.
  - intros [= <-]. tauto.
  - destruct (handle e w) as [w1|] eqn:E; [|discriminate]. intros H.
    destruct (handle_settled i e w w1 Hc Hs E) as [Hs1 E1].
    destruct (IH w1 (handle_coherent e w w1 Hc E) Hs1 H) as [Hs' E'].
    split; [exact Hs' | congruence].
Qed.

(** X5. In a window the program can reach, an entry that is neither the
    typing indicator nor the target of the reveal, and lies before them, is
    never changed or removed by anything that happens later. *)
Theorem settled_entry_kept (i : nat) (es : list event) (w w' : ChatWindow) :
  reachable w -> settled i w -> handle_all es w = Some w' ->
  messages w' !! i = messages w !! i.
Proof.
  intros Hr Hs H.
  exact (proj2 (handle_all_settled i es w w' (reachable_coherent w Hr) Hs H)).
Qed.

(** X6. A response that arrives while an earlier reply is still being
    revealed cuts that reveal off: from then on the entry of the earlier
    reply shows the characters revealed so far and nothing more, whatever
    happens later. *)
Theorem overtaken_reveal_cut_off (r : nat) (text : str) (es : list event)
    (w w1 w2 : ChatWindow) :
  reachable w -> reveal_msg_index w = Some r ->
  handle (ResultReady text) w = Some w1 ->
  handle_all es w1 = Some w2 ->
  messages w2 !! r
  = Some (Msg BOT_NAME
            (_create_message_block w BOT_NAME
               (markdown_to_html (firstn (reveal_index w) (reveal_full_text w))))).
Proof.
  intros Hr Er H1 H2. pose proof (reachable_coherent w Hr) as Hc.
  rewrite <- (coh_reveal_entry w Hc r Er).
  assert (settled r w1 /\ messages w1 !! r = messages w !! r) as [Hs E1].
  { cbn in H1. destruct (worker w) eqn:Ew; [|discriminate].
    unfold display_response in H1.
    destruct (sanitize text) as [cleaned|]; [|discriminate].
    injection H1 as <-.
    assert (exists j, typing_msg_index w = Some j) as (j & Ej).
    { destruct (typing_msg_index w) eqn:E; [eauto|].
      apply (coh_typing_index w Hc), (coh_worker w Hc) in E. congruence. }
    pose proof (coh_typing_last w Hc j Ej) as Hj.
    destruct (coh_reveal_range w Hc r Er) as [_ Hrj]. specialize (Hrj j Ej).
    unfold settled, _stop_typing_indicator, _start_reveal. cbn. rewrite Ej. cbn.
    rewrite (last_in_range _ _ Hj). cbn.
    rewrite length_snoc, (length_delete_last _ _ Hj).
    rewrite lookup_app_l by (rewrite (length_delete_last _ _ Hj); lia).
    rewrite list_lookup_delete_lt by lia.
    repeat split; try lia; try discriminate. intros r' [= <-]. lia. }
  rewrite <- E1.
  apply (handle_all_settled r es w1 w2); [|exact Hs | exact H2].
  eapply handle_coherent; eauto.
Qed.

(** ** The typing indicator *)

#[local] Arguments Nat.modulo : simpl never.
#[local] Arguments set_html : simpl never.

Lemma send_message_indicating typed w c u :
  strip typed = c :: u -> indicating w (c :: u) 0 (send_message typed w).
Proof.
  intros H. unfold indicating, send_message, user_entry. rewrite H.
  unfold _create_message_block. cbn. rewrite !length_snoc, <- app_assoc.
  repeat split.
Qed.

Lemma advance_dots_indicating w user_input k wk :
  indicating w user_input k wk -> indicating w user_input (S k) (_advance_dots wk).
Proof.
  intros (Ht & Hi & Hd & Hm & Hh & Hw & Hwa & Hb & Hu).
  unfold indicating, _advance_dots. rewrite Hi. cbn.
  rewrite Hm, Hd, length_app. cbn.
  destruct (Nat.ltb_spec (S (length (messages w))) (length (messages w) + 2))
    as [_|Hge]; [|lia].
  cbn. rewrite Nat.Div0.add_mod_idemp_l, Nat.add_1_r.
  repeat split; try assumption.
  rewrite (create_message_block_colors w) by (cbn; assumption).
  unfold set_html.
  change (messages w ++ [?a; ?b]) with (messages w ++ [a] ++ [b]).
  rewrite !(app_assoc (messages w) [user_entry w user_input]).
  rewrite alter_app_r_alt by (rewrite length_snoc; lia).
  rewrite length_snoc, Nat.sub_diag. reflexivity.
Qed.

Lemma ticks_indicating w user_input n k wk :
  indicating w user_input k wk ->
  exists wn,
    handle_all (repeat TypingTick n) wk = Some wn
    /\ indicating w user_input (k + n) wn.
Proof.
  revert k wk. induction n as [|n IH]; intros k wk H.
  - exists wk. rewrite Nat.add_0_r. split; [reflexivity | exact H].
  - destruct (IH (S k) (_advance_dots wk) (advance_dots_indicating _ _ _ _ H))
      as (wn & Hall & Hn).
    exists wn. split; [|now rewrite Nat.add_succ_r].
    cbn. destruct H as (-> & _). exact Hall.
Qed.

(** X7. While a reply is awaited the number of dots goes 0, 1, 2, 3, 0, ...:
    after [n] ticks the indicator is the last entry, after the message of the
    user, and shows [n mod 4] dots, never more than three. *)
Theorem typing_dots_cycle (typed : str) (w : ChatWindow) (c : ascii) (u : str)
    (n : nat) :
  strip typed = c :: u ->
  exists wn,
    handle_all (repeat TypingTick (S n)) (send_message typed w) = Some wn
    /\ typing_dots wn = S n mod 4
    /\ typing_dots wn <= 3
    /\ messages wn
       = messages w
           ++ [user_entry w (c :: u);
               Msg BOT_NAME
                 (_create_message_block w BOT_NAME (dots_html (S n mod 4)))].
Proof.
  intros H.
  destruct (ticks_indicating w (c :: u) (S n) 0 _ (send_message_indicating _ w _ _ H))
    as (wn & Hall & (_ & _ & Hd & Hm & _)).
  exists wn. cbn [Nat.add] in Hd, Hm.
  repeat split; try assumption.
  rewrite Hd. pose proof (Nat.mod_upper_bound (S n) 4). lia.
Qed.

(** X8. A turn that fails leaves the message of the user on the display and
    in the conversation, and nothing of the indicator: after the submission,
    any number of ticks of the indicator and the error signal, the entries
    are those from before and the message of the user, the conversation has
    gained the line of the user and no reply, the notice is shown and the
    input is enabled again. *)
Theorem failed_turn (typed : str) (w : ChatWindow) (c : ascii) (u : str)
    (n : nat) (message : str) :
  input_enabled w && send_enabled w = true ->
  strip typed = c :: u ->
  exists w',
    handle_all (Submit typed :: repeat TypingTick n ++ [ErrorSignal message]) w
    = Some w'
    /\ messages w' = messages w ++ [user_entry w (c :: u)]
    /\ conversation_history w' = conversation_history w ++ [lit "User: " ++ c :: u]
    /\ warnings w' = warnings w ++ [message]
    /\ typing_indicator_timer w' = false
    /\ input_enabled w' = true
    /\ send_enabled w' = true.
Proof.
  intros Hin H.
  destruct (ticks_indicating w (c :: u) n 0 _ (send_message_indicating _ w _ _ H))
    as (wn & Hall & (Ht & Hi & Hd & Hm & Hh & Hw & Hwa & _)).
  exists (display_error message (set_worker None wn)). split.
  - cbn [handle_all handle]. rewrite Hin, handle_all_app, Hall. cbn.
    now rewrite Hw.
  - unfold display_error, _stop_typing_indicator. cbn. rewrite Hi. cbn.
    rewrite Hm, length_app. cbn.
    destruct (Nat.ltb_spec (S (length (messages w))) (length (messages w) + 2))
      as [_|Hge]; [|lia].
    cbn. rewrite Hh, Hwa. repeat split.
    change (messages w ++ [?a; ?b]) with (messages w ++ [a] ++ [b]).
    rewrite !(app_assoc (messages w) [user_entry w (c :: u)]).
    replace (S (length (messages w)))
      with (length (messages w ++ [user_entry w (c :: u)]))
      by apply length_snoc.
    now rewrite delete_middle, app_nil_r.
Qed.

Lemma reveal_next_char_frame w w' :
  _reveal_next_char w = Some w' ->
  typing_indicator_timer w' = typing_indicator_timer w
  /\ conversation_history w' = conversation_history w
  /\ input_enabled w' = input_enabled w.
Proof.
  unfold _reveal_next_char. destruct (_ <=? _).
  - intros [= <-]. cbn. tauto.
  - cbn. destruct (reveal_msg_index w); [|discriminate].
    destruct (_ <? _); intros [= <-]; cbn; tauto.
Qed.

Lemma reveal_ticks_frame n w w' :
  handle_all (repeat RevealTick n) w = Some w' ->
  typing_indicator_timer w' = typing_indicator_timer w
  /\ conversation_history w' = conversation_history w
  /\ input_enabled w' = input_enabled w.
Proof.
  revert w. induction n as [|n IH]; intros w; cbn.
  - intros [= <-]. tauto.
  - destruct (reveal_timer w); [|discriminate].
    destruct (_reveal_next_char w) as [w1|] eqn:E; [|discriminate]. intros H.
    apply IH in H as (-> & -> & ->). now apply reveal_next_char_frame.
Qed.

Lemma last_tick_keeps_messages w text wk :
  revealing w text (length text) wk ->
  exists w',
    _reveal_next_char wk = Some w' /\ reveal_idle w' /\ messages w' = messages wk.
Proof.
  intros (Ht & Hf & Hi & _). unfold _reveal_next_char. rewrite Hf, Hi.
  rewrite Nat.leb_refl. eexists. split; [reflexivity|].
  unfold reveal_idle. cbn. repeat split.
Qed.

(** X9. A turn that succeeds, from the submission to the end of the reveal:
    after any number of ticks of the indicator, the response and one tick
    more than the kept text is long, the entries are those from before, the
    message of the user and the reply rendered in full; the conversation has
    gained the two lines, and both animations are over. *)
Theorem successful_turn (typed : str) (w : ChatWindow) (c : ascii) (u : str)
    (n : nat) (response cleaned : str) :
  input_enabled w && send_enabled w = true ->
  strip typed = c :: u ->
  sanitize response = Some cleaned ->
  exists w',
    handle_all
      (Submit typed :: repeat TypingTick n
         ++ ResultReady response :: repeat RevealTick (S (length cleaned))) w
    = Some w'
    /\ messages w'
       = messages w
           ++ [user_entry w (c :: u);
               Msg BOT_NAME
                 (_create_message_block w BOT_NAME (markdown_to_html cleaned))]
    /\ conversation_history w'
       = conversation_history w
           ++ [lit "User: " ++ c :: u; BOT_NAME ++ lit ": " ++ cleaned]
    /\ typing_indicator_timer w' = false
    /\ reveal_idle w'
    /\ input_enabled w' = true.
Proof.
  intros Hin H Hs.
  destruct (ticks_indicating w (c :: u) n 0 _ (send_message_indicating _ w _ _ H))
    as (wn & Hall & (Ht & Hi & Hd & Hm & Hh & Hw & Hwa & Hb & Hu)).
  set (w1 := _stop_typing_indicator (set_worker None wn)).
  set (w2 := set_conversation_history
               (conversation_history w1 ++ [BOT_NAME ++ lit ": " ++ cleaned]) w1).
  set (w3 := set_send_enabled true (set_input_enabled true (_start_reveal cleaned w2))).
  assert (handle (ResultReady response) wn = Some w3) as Hresp.
  { cbn. rewrite Hw. unfold display_response. now rewrite Hs. }
  assert (messages w2 = messages w ++ [user_entry w (c :: u)]
          /\ typing_indicator_timer w2 = false
          /\ bot_color w2 = bot_color w /\ user_color w2 = user_color w
          /\ conversation_history w2
             = conversation_history w
                 ++ [lit "User: " ++ c :: u; BOT_NAME ++ lit ": " ++ cleaned])
    as (Hm2 & Ht2 & Hb2 & Hu2 & Hh2).
  { unfold w2, w1, _stop_typing_indicator. cbn. rewrite Hi. cbn.
    rewrite Hm, length_app. cbn.
    destruct (Nat.ltb_spec (S (length (messages w))) (length (messages w) + 2))
      as [_|Hge]; [|lia].
    cbn. rewrite Hh, <- app_assoc. repeat split; try assumption.
    change (messages w ++ [?a; ?b]) with (messages w ++ [a] ++ [b]).
    rewrite !(app_assoc (messages w) [user_entry w (c :: u)]).
    replace (S (length (messages w)))
      with (length (messages w ++ [user_entry w (c :: u)]))
      by apply length_snoc.
    now rewrite delete_middle, app_nil_r. }
  assert (revealing w2 cleaned 0 w3) as Hrev0.
  { destruct (start_reveal_revealing cleaned w2) as (? & ? & ? & ? & ? & ? & ? & ?).
    unfold revealing, w3. cbn. repeat split; assumption. }
  destruct (ticks_revealing w2 cleaned (length cleaned) 0 w3 Hrev0)
    as (wL & HallL & HrevL); [lia|].
  cbn [Nat.add] in HallL, HrevL.
  destruct (last_tick_keeps_messages w2 cleaned wL HrevL)
    as (w' & Htick & Hidle & Hm').
  assert (handle_all (repeat RevealTick (S (length cleaned))) w3 = Some w') as Hticks.
  { replace (S (length cleaned)) with (length cleaned + 1) by lia.
    rewrite repeat_app, handle_all_app, HallL. cbn.
    destruct HrevL as (-> & _). now rewrite Htick. }
  exists w'. split.
  - cbn [handle_all handle]. rewrite Hin, handle_all_app, Hall.
    cbn [handle_all]. rewrite Hresp. exact Hticks.
  - destruct (reveal_ticks_frame _ _ _ Hticks) as (Ht' & Hh' & Hi').
    destruct HrevL as (_ & _ & _ & _ & HmL & _).
    rewrite Hm', HmL, Hm2, Ht', Hh', Hi', firstn_all, <- app_assoc.
    rewrite (create_message_block_colors w w2) by assumption.
    destruct Hidle as (? & ? & ? & ?). repeat split; assumption.
Qed.

(** * More on the worker and on submissions *)

Lemma drop_while_all p s :
  Forall (fun c => p c = true) s -> drop_while p s = [].
Proof. induction 1 as [|c s Hc Hs IH]; cbn; [reflexivity|]. now rewrite Hc. Qed.

Lemma drop_while_nil p s :
  drop_while p s = [] -> Forall (fun c => p c = true) s.
Proof.
  induction s as [|c s IH]; cbn; [constructor|].
  destruct (p c) eqn:E; [|discriminate]. intros H. constructor; auto.
Qed.

Lemma strip_blank s :
  strip s = [] <-> Forall (fun c => isspace c = true) s.
Proof.
  unfold strip, lstrip, rstrip. split.
  - intros H. apply drop_while_nil in H.
    destruct (drop_while isspace (rev s)) as [|c r] eqn:E.
    + apply drop_while_nil in E. apply List.Forall_rev in E.
      now rewrite rev_involutive in E.
    + apply drop_while_head in E as Hc. apply List.Forall_rev in H.
      rewrite rev_involutive in H. inversion H; congruence.
  - intros H. rewrite (drop_while_all isspace (rev s)) by now apply List.Forall_rev.
    reflexivity.
Qed.

(** X10. Every signal of the worker is a result whose text is not empty, or
    an error whose message begins with the word Error and a colon. *)
Theorem signal_well_formed (json_dumps : str -> str) (json_loads : str -> option str)
    (subprocess_run : str -> completed) (history : list str) :
  exists s,
    run json_dumps json_loads subprocess_run history = inr [s]
    /\ match s with
       | result_ready text => text <> []
       | error message => startswith message (lit "Error: ") = true
       end.
Proof.
  unfold run, run_try.
  destruct (subprocess_run (cmd json_dumps history)) as [stdout|[| |message]].
  - destruct (match json_loads _ with Some d => d | None => _ end) as [|c t];
      eexists; (split; [reflexivity|]); [reflexivity | discriminate].
  - eexists. split; reflexivity.
  - eexists. split; reflexivity.
  - eexists. split; [reflexivity|]. unfold startswith.
    now rewrite starts_with_self.
Qed.

(** X11. A process that returns nothing but white space, or nothing at all,
    is reported as having returned no output, provided that [json.loads] of
    an empty quoted string gives the empty string or raises. *)
Theorem blank_output_is_error (json_dumps : str -> str)
    (json_loads : str -> option str) (subprocess_run : str -> completed)
    (history : list str) (stdout : option str) :
  subprocess_run (cmd json_dumps history) = Returned stdout ->
  Forall (fun c => isspace c = true) (match stdout with Some o => o | None => [] end) ->
  json_loads [QUOTE; QUOTE] = Some [] \/ json_loads [QUOTE; QUOTE] = None ->
  run json_dumps json_loads subprocess_run history
  = inr [error (lit "Error: Model returned no output.")].
Proof.
  intros Hrun Hblank Hjson. unfold run, run_try. rewrite Hrun.
  assert (match stdout with Some (c :: r) => c :: r | _ => [] end
          = match stdout with Some o => o | None => [] end) as ->
    by (destruct stdout as [[|c r]|]; reflexivity).
  apply strip_blank in Hblank. rewrite Hblank. cbn [app].
  destruct Hjson as [-> | ->]; reflexivity.
Qed.

(** X12. A submission changes nothing exactly when the text of the input
    field is white space only (or empty): then no entry, no line of the
    conversation and no worker is made; any other text makes the
    conversation one line longer. *)
Theorem blank_submission_ignored (typed : str) (w : ChatWindow) :
  (send_message typed w = w <-> Forall (fun c => isspace c = true) typed)
  /\ (send_message typed w <> w ->
      conversation_history (send_message typed w)
      = conversation_history w ++ [lit "User: " ++ strip typed]).
Proof.
  split; [split|].
  - intros H. apply strip_blank. destruct (strip typed) as [|c u] eqn:E; [reflexivity|].
    destruct (send_message_sent typed w c u E) as (_ & _ & _ & Hh).
    rewrite H in Hh. apply (f_equal (@length str)) in Hh.
    rewrite length_snoc in Hh. lia.
  - intros H. apply strip_blank in H. now apply send_message_blank.
  - intros H. destruct (strip typed) as [|c u] eqn:E.
    + exfalso. apply H. now apply send_message_blank.
    + now destruct (send_message_sent typed w c u E) as (_ & _ & _ & ->).
Qed.

(** * The theme and the input field *)



(** X19. The height set on the input field lies between 40 and 150 for
    every height computed for its document, is the computed height where
    that lies in this range, and does not shrink when the computed height
    grows. *)
Theorem input_height_clamped (n m : Z) :
  (40 <= adjust_input_height n <= 150)%Z
  /\ ((40 <= n <= 150)%Z -> adjust_input_height n = n)
  /\ ((n <= m)%Z -> (adjust_input_height n <= adjust_input_height m)%Z).
Proof.
  unfold adjust_input_height.
  destruct (Z.ltb_spec n 40), (Z.ltb_spec m 40); lia.
Qed.

End App.

(** * Runs of the program

    One draw of the name, one greeting, and a codec that quotes on the way out
    and refuses to decode. *)

Definition elsa : str := lit "Elsa".

Definition quoted (s : str) : str := [QUOTE] ++ s ++ [QUOTE].

Definition refuses (s : str) : option str := None.

Definition opened : ChatWindow := initial elsa false (lit "Hello").

(** The window after the user has sent a first message. *)
Definition asked : ChatWindow := send_message elsa (lit "hi") opened.

(** A model that does not answer within the bound. *)
Definition times_out (command : str) : completed := Raised TimeoutExpired.

(** A model that answers, with white space around the text. *)
Definition answers (command : str) : completed :=
  Returned (Some (lit " Try a restart. ")).


Lemma unescape_or_raw_answers :
  answers (cmd elsa quoted []) = Returned (Some (lit " Try a restart. "))
  /\ exists text,
       text = lit "Try a restart."
       /\ run elsa quoted refuses answers [] = inr [result_ready text].
Proof.
  split; [reflexivity|].
  destruct (unescape_or_raw elsa quoted refuses answers []
              (Some (lit " Try a restart. ")) eq_refl) as (text & Ht & Hrun).
  exists text. split; [exact Ht|]. rewrite Hrun, Ht. reflexivity.
Defined.

Lemma failure_handling_time_out :
  handle_all elsa [Submit (lit "hi")] opened = Some asked
  /\ worker asked <> None
  /\ run elsa quoted refuses times_out (conversation_history asked)
     = inr [error (lit "Error: Model timed out.")]
  /\ exists w',
       handle elsa (ErrorSignal (lit "Error: Model timed out.")) asked = Some w'
       /\ conversation_history w' = conversation_history asked
       /\ warnings w' = [lit "Error: Model timed out."]
       /\ typing_indicator_timer w' = false
       /\ input_enabled w' = true
       /\ send_enabled w' = true.
Proof.
  assert (handle_all elsa [Submit (lit "hi")] opened = Some asked) as H1
    by reflexivity.
  assert (worker asked <> None) as H2 by discriminate.
  assert (run elsa quoted refuses times_out (conversation_history asked)
          = inr [error (lit "Error: Model timed out.")]) as H3 by reflexivity.
  repeat (split; [assumption|]).
  destruct (failure_handling elsa quoted refuses [Submit (lit "hi")] false
              (lit "Hello") asked times_out _ H1 H2 H3)
    as (w' & Hh & Hc & Hw & Ht & _ & Hi & Hs & _).
  exists w'. repeat (split; [assumption|]). exact Hs.
Defined.

Lemma label_prefix_stripped_elsa :
  In elsa BOT_NAMES
  /\ exists w',
       display_response elsa (lit " elsa:  Try a restart. ") asked = Some w'
       /\ reveal_full_text w' = lit "Try a restart.".
Proof.
  assert (In elsa BOT_NAMES) as H by (left; reflexivity).
  split; [exact H|].
  destruct (label_prefix_stripped elsa (lit " elsa:  Try a restart. ") asked H)
    as ((w' & Hd & _ & Hf) & _).
  exists w'. split; assumption.
Defined.


(** C3, as stated, fails: after as many ticks as the text is long the reveal
    is not idle, the timer still runs. *)
Lemma reveal_running_after_length_ticks :
  exists w',
    handle_all elsa (repeat RevealTick (length (lit "hi")))
      (_start_reveal elsa (lit "hi") opened) = Some w'
    /\ ~ reveal_idle w'.
Proof.
  eexists. split; [vm_compute; reflexivity|].
  intros (H & _). discriminate H.
Qed.

Lemma reveal_ticks_hi :
  2 <= length (lit "hi")
  /\ (exists wk,
        handle_all elsa (repeat RevealTick 2) (_start_reveal elsa (lit "hi") opened)
        = Some wk
        /\ revealing elsa opened (lit "hi") 2 wk)
  /\ (exists w',
        handle_all elsa (repeat RevealTick 3) (_start_reveal elsa (lit "hi") opened)
        = Some w'
        /\ reveal_idle w').
Proof.
  assert (2 <= length (lit "hi")) as H by (cbn; lia).
  split; [exact H|].
  exact (reveal_ticks elsa (lit "hi") opened 2 H).
Defined.

(** C4, as stated, fails: the user may send the next message while the
    reply is still being revealed, and then both timers run. *)
Lemma both_timers_running :
  exists w,
    handle_all elsa
      [Submit (lit "My screen stays black.");
       ResultReady
         (lit "Hold the power button for ten seconds, wait a moment, then start the computer again and tell me what you see.");
       Submit (lit "ok")] opened = Some w
    /\ ~ one_tick_source w.
Proof.
  eexists. split; [vm_compute; reflexivity|].
  intros H. discriminate H.
Qed.

Lemma orderly_one_tick_source_run :
  let es := [Submit (lit "hi"); TypingTick; ResultReady (lit "ok");
             RevealTick; RevealTick; RevealTick; Submit (lit "yes")] in
  orderly elsa es opened = true
  /\ exists w, handle_all elsa es opened = Some w /\ one_tick_source w.
Proof.
  intros es.
  assert (orderly elsa es opened = true) as H by (vm_compute; reflexivity).
  split; [exact H|].
  destruct (handle_all elsa es opened) as [w|] eqn:E; [|vm_compute in E; discriminate E].
  exists w. split; [reflexivity|].
  exact (orderly_one_tick_source elsa es false (lit "Hello") w H E).
Defined.

(** * More runs *)

(** A model that returns white space only. *)
Definition silent (command : str) : completed := Returned (Some (lit "  ")).


Lemma asked_reachable : reachable elsa asked.
Proof. exists [Submit (lit "hi")], false, (lit "Hello"). reflexivity. Defined.

Lemma enabled_event_handled_asked :
  reachable elsa asked
  /\ enabled (ResultReady (lit "Elsa: ok")) asked = true
  /\ exists w',
       handle elsa (ResultReady (lit "Elsa: ok")) asked = Some w'
       /\ reachable elsa w'.
Proof.
  assert (enabled (ResultReady (lit "Elsa: ok")) asked = true) as H by reflexivity.
  split; [exact asked_reachable|]. split; [exact H|].
  exact (enabled_event_handled elsa _ asked asked_reachable H).
Defined.


Lemma display_up_to_date_asked :
  reachable elsa asked
  /\ chat_display asked
     = lit "<div style='font-size:16px; line-height:1.4;'>"
         ++ concat (map html (messages asked)) ++ lit "</div>".
Proof.
  split; [exact asked_reachable|].
  exact (display_up_to_date elsa asked asked_reachable).
Defined.


Lemma settled_entry_kept_greeting :
  let es := [TypingTick; ResultReady (lit "ok"); RevealTick; Submit (lit "yes")] in
  reachable elsa asked
  /\ settled 0 asked
  /\ exists w',
       handle_all elsa es asked = Some w'
       /\ messages w' !! 0 = messages asked !! 0.
Proof.
  intros es.
  assert (settled 0 asked) as H.
  { split; [vm_compute; lia|]. split; intros j Hj; vm_compute in Hj.
    - discriminate Hj.
    - injection Hj as <-. lia. }
  split; [exact asked_reachable|]. split; [exact H|].
  destruct (handle_all elsa es asked) as [w'|] eqn:E;
    [|vm_compute in E; discriminate E].
  exists w'. split; [reflexivity|].
  exact (settled_entry_kept elsa 0 es asked w' asked_reachable H E).
Defined.

Lemma overtaken_reveal_cut_off_run :
  exists w w1 w2,
    handle_all elsa
      [Submit (lit "hi"); ResultReady (lit "Restart it."); RevealTick;
       RevealTick; Submit (lit "how")] opened = Some w
    /\ reveal_msg_index w = Some 2
    /\ handle elsa (ResultReady (lit "Hold the button.")) w = Some w1
    /\ handle_all elsa [RevealTick; RevealTick; RevealTick] w1 = Some w2
    /\ messages w2 !! 2
       = Some (Msg elsa (_create_message_block elsa w elsa (lit "Re"))).
Proof.
  eexists _, _, _.
  split; [vm_compute; reflexivity|].
  split; [reflexivity|].
  split; [vm_compute; reflexivity|].
  split; [vm_compute; reflexivity|].
  refine (eq_trans
            (overtaken_reveal_cut_off elsa 2 (lit "Hold the button.")
               [RevealTick; RevealTick; RevealTick] _ _ _ _ _ _ _) _).
  - exists [Submit (lit "hi"); ResultReady (lit "Restart it."); RevealTick;
            RevealTick; Submit (lit "how")], false, (lit "Hello").
    vm_compute. reflexivity.
  - reflexivity.
  - vm_compute. reflexivity.
  - vm_compute. reflexivity.
  - vm_compute. reflexivity.
Defined.

Lemma typing_dots_cycle_five :
  strip (lit " hi ") = lit "hi"
  /\ exists wn,
       handle_all elsa (repeat TypingTick 5) (send_message elsa (lit " hi ") opened)
       = Some wn
       /\ typing_dots wn = 1
       /\ messages wn
          = messages opened
              ++ [user_entry elsa opened (lit "hi");
                  Msg elsa (_create_message_block elsa opened elsa (dots_html 1))].
Proof.
  assert (strip (lit " hi ") = lit "hi") as H by reflexivity.
  split; [exact H|].
  destruct (typing_dots_cycle elsa (lit " hi ") opened _ _ 4 H)
    as (wn & Hh & Hd & _ & Hm).
  exists wn. repeat split; assumption.
Defined.

Lemma failed_turn_time_out :
  input_enabled opened && send_enabled opened = true
  /\ strip (lit "hi") = lit "hi"
  /\ exists w',
       handle_all elsa
         (Submit (lit "hi") :: repeat TypingTick 3
            ++ [ErrorSignal (lit "Error: Model timed out.")]) opened = Some w'
       /\ messages w' = messages opened ++ [user_entry elsa opened (lit "hi")]
       /\ conversation_history w' = [lit "Elsa: Hello"; lit "User: hi"]
       /\ warnings w' = [lit "Error: Model timed out."]
       /\ input_enabled w' = true.
Proof.
  assert (input_enabled opened && send_enabled opened = true) as H1 by reflexivity.
  assert (strip (lit "hi") = lit "hi") as H2 by reflexivity.
  split; [exact H1|]. split; [exact H2|].
  destruct (failed_turn elsa (lit "hi") opened _ _ 3
              (lit "Error: Model timed out.") H1 H2)
    as (w' & Hh & Hm & Hc & Hw & _ & Hi & _).
  exists w'. repeat split; assumption.
Defined.

Lemma successful_turn_labelled :
  input_enabled opened && send_enabled opened = true
  /\ strip (lit "hi") = lit "hi"
  /\ sanitize elsa (lit "Elsa: Restart it.") = Some (lit "Restart it.")
  /\ exists w',
       handle_all elsa
         (Submit (lit "hi") :: repeat TypingTick 3
            ++ ResultReady (lit "Elsa: Restart it.") :: repeat RevealTick 12)
         opened = Some w'
       /\ messages w'
          = messages opened
              ++ [user_entry elsa opened (lit "hi");
                  Msg elsa (_create_message_block elsa opened elsa (lit "Restart it."))]
       /\ conversation_history w'
          = [lit "Elsa: Hello"; lit "User: hi"; lit "Elsa: Restart it."]
       /\ reveal_idle w'.
Proof.
  assert (input_enabled opened && send_enabled opened = true) as H1 by reflexivity.
  assert (strip (lit "hi") = lit "hi") as H2 by reflexivity.
  assert (sanitize elsa (lit "Elsa: Restart it.") = Some (lit "Restart it.")) as H3
    by reflexivity.
  split; [exact H1|]. split; [exact H2|]. split; [exact H3|].
  destruct (successful_turn elsa (lit "hi") opened _ _ 3 _ _ H1 H2 H3)
    as (w' & Hh & Hm & Hc & _ & Hidle & _).
  exists w'. split; [exact Hh|]. split; [exact Hm|]. split; [exact Hc | exact Hidle].
Defined.

Lemma blank_output_is_error_silent :
  silent (cmd elsa quoted []) = Returned (Some (lit "  "))
  /\ run elsa quoted refuses silent []
     = inr [error (lit "Error: Model returned no output.")].
Proof.
  split; [reflexivity|].
  apply (blank_output_is_error elsa quoted refuses silent [] (Some (lit "  ")));
    [reflexivity | repeat constructor | right; reflexivity].
Defined.

Lemma blank_submission_ignored_spaces :
  Forall (fun c => isspace c = true) (lit "  ")
  /\ send_message elsa (lit "  ") opened = opened.
Proof.
  assert (Forall (fun c => isspace c = true) (lit "  ")) as H
    by (repeat constructor).
  split; [exact H|].
  exact (proj2 (proj1 (blank_submission_ignored elsa (lit "  ") opened)) H).
Defined.

Lemma text_rendered_by_line_two_lines :
  markdown_to_html (lit "a < b" ++ [LF] ++ lit "c & d")
  = lit "a &lt; b<br>c &amp; d".
Proof.
  refine (eq_trans (text_rendered_by_line (lit "a < b" ++ [LF] ++ lit "c & d") _ _ _) _).
  - vm_compute. intuition discriminate.
  - vm_compute. intuition discriminate.
  - repeat constructor.
  - reflexivity.
Defined.

Lemma marked_span_rendered_blank_first :
  (lit " a" <> [] /\ Forall (fun c => plain c = true) (lit " a"))
  /\ markdown_to_html (lit "` a`") = lit "<code> a</code>"
  /\ markdown_to_html (lit "** a**") = lit "<b> a</b>"
  /\ markdown_to_html (lit "* a*") = lit "<i> a</i>".
Proof.
  assert (lit " a" <> []) as H1 by discriminate.
  assert (Forall (fun c => plain c = true) (lit " a")) as H2
    by (repeat constructor).
  split; [split; assumption|].
  exact (marked_span_rendered (lit " a") H1 H2).
Defined.

Lemma bullet_list_rendered_two :
  markdown_to_html (lit "- unplug it" ++ [LF] ++ lit "-   wait")
  = UL_OPEN ++ lit "<br><li>unplug it</li><br><li>wait</li><br></ul>".
Proof.
  refine (eq_trans (bullet_list_rendered [lit "unplug it"; lit "  wait"] _ _) _).
  - discriminate.
  - repeat constructor.
  - reflexivity.
Defined.

Lemma numbered_list_rendered_two :
  markdown_to_html (lit "7. unplug it" ++ [LF] ++ lit "7. wait")
  = OL_OPEN ++ lit "<br><li>unplug it</li><br><li>wait</li><br></ol>".
Proof.
  refine (eq_trans
            (numbered_list_rendered
               [(lit "7", lit "unplug it"); (lit "7", lit "wait")] _ _) _).
  - discriminate.
  - repeat constructor; discriminate.
  - reflexivity.
Defined.


Lemma input_height_clamped_at_90 :
  adjust_input_height 90 = 90%Z
  /\ (adjust_input_height 90 <= adjust_input_height 400)%Z.
Proof.
  destruct (input_height_clamped 90 400) as (_ & H1 & H2).
  split; [apply H1; lia | apply H2; lia].
Defined.
